(** * make-gif.py: frame durations, canvas normalisation and the GIF driver

    A shallow embedding of [scripts/make-gif.py].  Python integers are [Z],
    Python lists are [list], Pillow images are rasters of rows of pixels
    together with their declared size, and the module-level script is a
    computation over an explicit world (file system, standard output and
    the calls made to [Image.save]) that either returns, raises, or leaves
    through [sys.exit].  What Pillow's PNG reader and GIF writer do with
    the bytes of a file is not part of the script: both are parameters. *)

From Stdlib Require Import Strings.Byte.
From stdpp Require Import gmap strings list fin_maps pretty numbers.

Open Scope Z_scope.

(** ** Python results *)

Inductive Exn :=
  | ValueError          (* max() of an empty sequence *)
  | IndexError          (* list index out of range *)
  | ZeroDivisionError   (* integer division by zero *)
  | FileNotFoundError   (* open/stat of an absent path *)
  | IsADirectoryError   (* open of a directory *)
  | NotADirectoryError  (* open below something that is not a directory *)
  | UnidentifiedImageError  (* a file Pillow cannot read as an image *)
  | OSError.            (* any other failure of the reader or the writer *)

Inductive Res (A : Type) :=
  | Ok (a : A)
  | Raise (e : Exn).
Arguments Ok {A} a.
Arguments Raise {A} e.

#[global] Instance Res_ret : MRet Res := λ A a, Ok a.
#[global] Instance Res_bind : MBind Res := λ A B f m,
  match m with
  | Ok a => f a
  | Raise e => Raise e
  end.

(** [a // b] on Python integers: floor division, raising on a zero divisor. *)
Definition floordiv (a b : Z) : Res Z :=
  if decide (b = 0) then Raise ZeroDivisionError else Ok (a `div` b).

(** [l[i]] on a Python list: negative indices count from the end. *)
Definition py_index {A} (l : list A) (i : Z) : Res A :=
  let n := Z.of_nat (length l) in
  let j := if decide (i < 0) then i + n else i in
  if decide (0 ≤ j < n) then
    match l !! Z.to_nat j with
    | Some x => Ok x
    | None => Raise IndexError
    end
  else Raise IndexError.

(** [list(range(a, b))]. *)
Definition range (a b : Z) : list Z := seqZ a (b - a).

(** [max(...)] over a sequence of non-negative sizes. *)
Definition py_max (l : list nat) : Res nat :=
  match l with
  | [] => Raise ValueError
  | x :: l' => Ok (foldl Nat.max x l')
  end.

(** ** Duration tables (lines 10-38) *)

Definition SPEED : Z := 3.

Definition base_durations : list Z :=
  [ 2500; 1500; 2000; 3000; 2500; 1200; 1200; 3500; 2000;
    1500; 2500; 2000; 3000; 1200; 1200; 2000; 2000; 3500 ].

(** [[max(50, d // speed) for d in base]], for any speed and table. *)
Definition derive_durations (speed : Z) (base : list Z) : Res (list Z) :=
  mapM (λ d, q ← floordiv d speed; mret (50 `max` q)) base.

Definition durations : Res (list Z) := derive_durations SPEED base_durations.

Definition WORKTREE_FRAMES : list Z := range 9 14.

(** [[durs[i - 1] for i in WORKTREE_FRAMES]], for any derived table. *)
Definition select_durations (durs : list Z) (frames : list Z) : Res (list Z) :=
  mapM (λ i, py_index durs (i - 1)) frames.

Definition worktree_durations : Res (list Z) :=
  durs ← durations; select_durations durs WORKTREE_FRAMES.

(** ** Pillow images *)

(** The two modes the script produces: RGBA after loading, RGB after
    normalising. *)
Inductive Mode := RGB | RGBA.

#[global] Instance Mode_eq_dec : EqDecision Mode.
Proof. solve_decision. Defined.

Definition RGBPixel : Type := Z * Z * Z.
Definition RGBAPixel : Type := Z * Z * Z * Z.

(** Pixel storage, one list per scan line, top to bottom. *)
Inductive Raster :=
  | RasterRGB (rows : list (list RGBPixel))
  | RasterRGBA (rows : list (list RGBAPixel)).

Record Image := mkImage {
  width : nat;
  height : nat;
  raster : Raster
}.

Definition mode (im : Image) : Mode :=
  match raster im with
  | RasterRGB _ => RGB
  | RasterRGBA _ => RGBA
  end.

(** The raster has [height] rows of [width] pixels each. *)
Definition rows_fit {P} (w h : nat) (rows : list (list P)) : bool :=
  bool_decide (length rows = h) && forallb (λ r, bool_decide (length r = w)) rows.

Definition wf_image (im : Image) : bool :=
  match raster im with
  | RasterRGB rows => rows_fit (width im) (height im) rows
  | RasterRGBA rows => rows_fit (width im) (height im) rows
  end.

Definition drop_alpha (p : RGBAPixel) : RGBPixel :=
  let '(r, g, b, _) := p in (r, g, b).

Definition add_alpha (p : RGBPixel) : RGBAPixel :=
  let '(r, g, b) := p in (r, g, b, 255).

(** The colour shown at column [x] of row [y]; [None] outside the raster. *)
Definition rgb_at (im : Image) (x y : nat) : option RGBPixel :=
  match raster im with
  | RasterRGB rows => rows !! y ≫= (.!! x)
  | RasterRGBA rows => drop_alpha <$> (rows !! y ≫= (.!! x))
  end.

(** The stored alpha at [(x, y)]; an RGB image has no such channel. *)
Definition alpha_at (im : Image) (x y : nat) : option Z :=
  match raster im with
  | RasterRGB _ => None
  | RasterRGBA rows => (λ p : RGBAPixel, p.2) <$> (rows !! y ≫= (.!! x))
  end.

(** [im.convert(m)]: a copy when the mode already matches; RGBA to RGB
    keeps the three colour bands and forgets alpha; RGB to RGBA adds an
    opaque alpha band (an [Image] carries no [info], hence no transparent
    colour; the conversion of a freshly opened file is part of the
    reader, see [decode_rgba]). *)
Definition convert (m : Mode) (im : Image) : Image :=
  match m, raster im with
  | RGB, RasterRGBA rows =>
      mkImage (width im) (height im) (RasterRGB (fmap (M:=list) drop_alpha <$> rows))
  | RGBA, RasterRGB rows =>
      mkImage (width im) (height im) (RasterRGBA (fmap (M:=list) add_alpha <$> rows))
  | _, _ => im
  end.

(** [Image.new('RGB', (w, h), color)]. *)
Definition Image_new_RGB (size : nat * nat) (color : RGBPixel) : Image :=
  mkImage size.1 size.2 (RasterRGB (replicate size.2 (replicate size.1 color))).

(** One scan line of a paste at horizontal offset [ox], clipped to the
    destination line. *)
Definition paste_row {P} (ox : nat) (src dst : list P) : list P :=
  take ox dst ++ take (length dst - ox) src ++ drop (ox + length src) dst.

(** The region copy of [paste]: rows [oy ..] of the destination receive the
    source rows, clipped to the destination. *)
Definition paste_rows {P} (box : nat * nat) (src dst : list (list P)) : list (list P) :=
  take box.2 dst
  ++ zip_with (paste_row box.1) src (drop box.2 dst)
  ++ drop (box.2 + length src) dst.

(** [dst.paste(im, box)] with a two-element box and no mask: the source is
    brought to the destination's mode and its pixels overwrite the region;
    the destination keeps its size. *)
Definition paste (dst im : Image) (box : nat * nat) : Image :=
  match raster dst, raster (convert (mode dst) im) with
  | RasterRGB d, RasterRGB s =>
      mkImage (width dst) (height dst) (RasterRGB (paste_rows box s d))
  | RasterRGBA d, RasterRGBA s =>
      mkImage (width dst) (height dst) (RasterRGBA (paste_rows box s d))
  | _, _ => dst
  end.

(** ** Canvas normaliser (lines 52-63) *)

Definition background : RGBPixel := (30, 30, 30).

Definition normalize_one (max_w max_h : nat) (img : Image) : Image :=
  if bool_decide (width img = max_w) && bool_decide (height img = max_h)
  then convert RGB img
  else paste (Image_new_RGB (max_w, max_h) background) img (0%nat, 0%nat).

Definition normalize (images : list Image) : Res (list Image) :=
  max_w ← py_max (width <$> images);
  max_h ← py_max (height <$> images);
  mret (normalize_one max_w max_h <$> images).

(** ** Paths, files and the world the script runs in *)

(** A [pathlib] path: its root ([""] for a relative path) and its
    components. *)
Record Path := mkPath {
  root : string;
  tail : list string
}.

#[global] Instance Path_eq_dec : EqDecision Path.
Proof. solve_decision. Defined.

#[global] Instance Path_countable : Countable Path :=
  inj_countable' (λ p, (root p, tail p)) (λ rt, mkPath rt.1 rt.2)
                 (λ p, match p with mkPath _ _ => eq_refl end).

(** [p / name] for a single component [name]. *)
Definition path_div (p : Path) (name : string) : Path :=
  mkPath (root p) (tail p ++ [name]).

(** [str(p)]. *)
Definition path_str (p : Path) : string :=
  let s := root p +:+ String.concat "/" (tail p) in
  if decide (s = "") then "." else s.

(** [p.parent]: the directory a file at [p] lives in. *)
Definition path_parent (p : Path) : Path :=
  mkPath (root p) (removelast (tail p)).

(** What a path names: a directory (with the size [stat] reports for it)
    or a regular file with its bytes. *)
Inductive Entry :=
  | Directory (size : Z)
  | Regular (data : list byte).

(** One call of [Image.save]: the target, the image it is called on, the
    [append_images], the [duration] list and the [loop] count. *)
Record SaveCall := mkSaveCall {
  call_path : Path;
  call_first : Image;
  call_rest : list Image;
  call_durations : list Z;
  call_loop : Z
}.

Definition call_frames (c : SaveCall) : list Image :=
  call_first c :: call_rest c.

(** The world: the file system, the lines printed so far and the calls
    made to [Image.save] so far. *)
Record World := mkWorld {
  fs : gmap Path Entry;
  stdout : list string;
  saves : list SaveCall
}.

(** How a computation ends: normally, with an uncaught exception, or
    through [sys.exit(code)]. *)
Inductive Outcome (A : Type) :=
  | Returned (a : A)
  | Raised (e : Exn)
  | Exited (code : Z).
Arguments Returned {A} a.
Arguments Raised {A} e.
Arguments Exited {A} code.

Definition M (A : Type) : Type := World → Outcome A * World.

#[global] Instance M_ret : MRet M := λ A a w, (Returned a, w).
#[global] Instance M_bind : MBind M := λ A B f m w,
  match m w with
  | (Returned a, w') => f a w'
  | (Raised e, w') => (Raised e, w')
  | (Exited c, w') => (Exited c, w')
  end.

Definition lift {A} (r : Res A) : M A := λ w,
  match r with
  | Ok a => (Returned a, w)
  | Raise e => (Raised e, w)
  end.

(** The status the interpreter hands to the shell. *)
Definition exit_status {A} (o : Outcome A) : Z :=
  match o with
  | Returned _ => 0
  | Raised _ => 1
  | Exited c => c
  end.

Definition print (line : string) : M unit := λ w,
  (Returned (), mkWorld (fs w) (stdout w ++ [line]) (saves w)).

Definition sys_exit {A} (code : Z) : M A := λ w, (Exited code, w).

(** [p.exists()]: true of a file and of a directory. *)
Definition path_exists (p : Path) : M bool := λ w,
  (Returned (bool_decide (is_Some (fs w !! p))), w).

(** [p.stat().st_size]. *)
Definition path_stat_size (p : Path) : M Z := λ w,
  match fs w !! p with
  | Some (Regular data) => (Returned (Z.of_nat (length data)), w)
  | Some (Directory size) => (Returned size, w)
  | None => (Raised FileNotFoundError, w)
  end.

(** [f'{size / 1024:.0f}']: the quotient rounded to the nearest integer,
    ties to even. *)
Definition format_kb (size : Z) : string :=
  let q := size `div` 1024 in
  let r := size `mod` 1024 in
  pretty (if decide (r < 512) then q
          else if decide (512 < r) then q + 1
          else if Z.even q then q else q + 1).

(** The decoded pixels of a file: width, height and RGBA scan lines. *)
Definition Decoded : Type := nat * nat * list (list RGBAPixel).

Definition rgba_image (d : Decoded) : Image :=
  mkImage d.1.1 d.1.2 (RasterRGBA d.2).

(** What the GIF writer does once the target is open: it completes and
    the file holds [data], or it raises and leaves [remains] at the target
    ([None]: no file). *)
Inductive WriteResult :=
  | Wrote (data : list byte)
  | Broke (e : Exn) (remains : option (list byte)).

(** What a call of [Image.save] comes to: the bytes now at the target, or
    an exception together with what the target names afterwards. *)
Inductive SaveOutcome :=
  | SaveOk (data : list byte)
  | SaveErr (e : Exn) (after : option Entry).

Section Script.

(** Pillow's reader, for [Image.open(path).convert('RGBA')] on the bytes
    of a regular file: the RGBA pixels, or the exception raised for bytes
    it cannot identify or decode. *)
Variable decode_rgba : list byte → Res Decoded.

(** Pillow's GIF writer, for [first.save(fp, save_all=True,
    append_images=rest, duration=durs, loop=lp, optimize=True)] on an
    opened target; the flag tells whether the target existed before.  How
    many frames and which delays end up in the bytes is the writer's
    business. *)
Variable gif_writer : bool → Image → list Image → list Z → Z → WriteResult.

(** [sys.argv] with every word read as a path. *)
Variable argv : list Path.

(** [Image.open(p).convert('RGBA')]. *)
Definition Image_open_RGBA (p : Path) : M Image := λ w,
  match fs w !! p with
  | Some (Regular data) =>
      match decode_rgba data with
      | Ok d => (Returned (rgba_image d), w)
      | Raise e => (Raised e, w)
      end
  | Some (Directory _) => (Raised IsADirectoryError, w)
  | None => (Raised FileNotFoundError, w)
  end.

(** Opening [path] for writing and running the writer, in file system [m]:
    a directory cannot be opened as a file, and a file can only be created
    inside an existing directory. *)
Definition try_save (m : gmap Path Entry) (path : Path)
    (first : Image) (rest : list Image) (durs : list Z) (lp : Z) : SaveOutcome :=
  match m !! path with
  | Some (Directory size) => SaveErr IsADirectoryError (Some (Directory size))
  | target =>
      match m !! path_parent path with
      | Some (Directory _) =>
          match gif_writer (bool_decide (is_Some target)) first rest durs lp with
          | Wrote data => SaveOk data
          | Broke e remains => SaveErr e (Regular <$> remains)
          end
      | Some (Regular _) => SaveErr NotADirectoryError target
      | None => SaveErr FileNotFoundError target
      end
  end.

(** [first.save(path, save_all=True, append_images=rest, duration=durs,
    loop=lp, optimize=True)]. *)
Definition Image_save (first : Image) (rest : list Image) (durs : list Z)
    (lp : Z) (path : Path) : M unit := λ w,
  let calls := saves w ++ [mkSaveCall path first rest durs lp] in
  match try_save (fs w) path first rest durs lp with
  | SaveOk data =>
      (Returned (), mkWorld (<[path := Regular data]> (fs w)) (stdout w) calls)
  | SaveErr e after =>
      (Raised e, mkWorld (partial_alter (λ _, after) path (fs w)) (stdout w) calls)
  end.

(** Lines 7-8. *)
Definition frames_dir : Path :=
  default (mkPath "/" ["tmp"; "recomposable-frames"]) (argv !! 1%nat).
Definition out_dir : Path :=
  default (mkPath "" ["screenshots"]) (argv !! 2%nat).

Definition frame_path (i : Z) : Path :=
  path_div frames_dir ("frame-" +:+ pretty i +:+ ".png").

(** Lines 41-49. *)
Definition load_frame (i : Z) : M Image :=
  let path := frame_path i in
  found ← path_exists path;
  (if found : bool then mret ()
   else print ("Missing: " +:+ path_str path);; sys_exit 1);;
  Image_open_RGBA path.

Definition load_frames (indices : list Z) : M (list Image) :=
  mapM load_frame indices.

(** Lines 66-78. *)
Definition save_gif (images : list Image) (durs : list Z) (path : Path) : M unit :=
  norm ← lift (normalize images);
  first ← lift (py_index norm 0);
  Image_save first (drop 1 norm) durs 0 path;;
  size ← path_stat_size path;
  first' ← lift (py_index norm 0);
  print ("  " +:+ path_str path +:+ " (" +:+ pretty (width first') +:+ "x"
         +:+ pretty (height first') +:+ ", " +:+ pretty (length norm)
         +:+ " frames, " +:+ format_kb size +:+ "KB)").

Definition all_indices : list Z :=
  range 1 (Z.of_nat (length base_durations) + 1).

(** The module body, lines 34-38 and 81-90. *)
Definition main : M unit :=
  durs ← lift durations;
  wt_durs ← lift worktree_durations;
  print ("Speed: " +:+ pretty SPEED +:+ "x");;
  all_images ← load_frames all_indices;
  save_gif all_images durs (path_div out_dir "demo.gif");;
  wt_images ← load_frames WORKTREE_FRAMES;
  save_gif wt_images wt_durs (path_div out_dir "worktree.gif").

(** The image frame [i] decodes to in file system [m], when its file is a
    regular file the reader accepts. *)
Definition frame_image (m : gmap Path Entry) (i : Z) : option Image :=
  match m !! frame_path i with
  | Some (Regular data) =>
      match decode_rgba data with
      | Ok d => Some (rgba_image d)
      | Raise _ => None
      end
  | _ => None
  end.

(** The images of a plan, when every one of its frames decodes. *)
Definition plan_images (m : gmap Path Entry) (indices : list Z) : option (list Image) :=
  mapM (frame_image m) indices.

End Script.

(** Where the two animations go (lines 86 and 90). *)
Definition demo_path (argv : list Path) : Path :=
  path_div (out_dir argv) "demo.gif".
Definition worktree_path (argv : list Path) : Path :=
  path_div (out_dir argv) "worktree.gif".

(** The line [save_gif] prints for a file of [size] bytes. *)
Definition summary_line (path : Path) (w h n : nat) (size : nat) : string :=
  "  " +:+ path_str path +:+ " (" +:+ pretty w +:+ "x" +:+ pretty h +:+ ", "
  +:+ pretty n +:+ " frames, " +:+ format_kb (Z.of_nat size) +:+ "KB)".

(** [m] is the largest element of [l]. *)
Definition is_max (m : nat) (l : list nat) : Prop :=
  m ∈ l ∧ ∀ x, x ∈ l → (x ≤ m)%nat.


(** ** Sample inputs *)

Definition img_small : Image :=
  mkImage 1 1 (RasterRGBA [[(1, 2, 3, 0)]]).
Definition img_big : Image :=
  mkImage 2 2 (RasterRGBA [[(10, 20, 30, 255); (40, 50, 60, 128)];
                           [(70, 80, 90, 0); (100, 110, 120, 255)]]).

(** An image stored without alpha. *)
Definition img_rgb : Image :=
  mkImage 2 1 (RasterRGB [[(2, 2, 2); (2, 2, 2)]]).

Definition byte_of (n : Z) : byte := default "000"%byte (Byte.of_nat (Z.to_nat n)).

(** A toy reader: two bytes [w; v] are a picture of [w] by [1] opaque
    pixels of grey [v]; anything else is not an image. *)
Definition sample_decode (data : list byte) : Res Decoded :=
  match data with
  | [bw; bv] =>
      let v := Z.of_nat (Byte.to_nat bv) in
      Ok (Byte.to_nat bw, 1%nat, [replicate (Byte.to_nat bw) (v, v, v, 255)])
  | _ => Raise UnidentifiedImageError
  end.

(** A toy writer: it wants a duration for every frame and then emits a
    number of bytes that grows with the pixels handed in. *)
Definition sample_writer (existed : bool) (first : Image) (rest : list Image)
    (durs : list Z) (lp : Z) : WriteResult :=
  if decide (length durs < S (length rest))%nat then Broke IndexError None
  else Wrote (replicate (800 + width first * height first * S (length rest))
                        "044"%byte).

Definition sample_entries (frame : Z → list byte) (indices : list Z) :
    list (Path * Entry) :=
  (λ i, (frame_path [] i, Regular (frame i))) <$> indices.

(** A frame directory holding [frame-1.png] to [frame-18.png], frame [i]
    being [i] pixels wide, and an output directory. *)
Definition sample_fs : gmap Path Entry :=
  <[mkPath "" ["screenshots"] := Directory 4096]>
    (list_to_map (sample_entries (λ i, [byte_of i; byte_of i]) (range 1 19))).

Definition sample_world : World := mkWorld sample_fs [] [].

(** The same without [frame-7.png]. *)
Definition sample_world_gap : World :=
  mkWorld (delete (frame_path [] 7) sample_fs) [] [].

(** The same without the output directory. *)
Definition sample_world_nodir : World :=
  mkWorld (delete (mkPath "" ["screenshots"]) sample_fs) [] [].

(** [frame-1.png] is there but is not an image, and [frame-7.png] is
    absent. *)
Definition sample_world_bad : World :=
  mkWorld (<[frame_path [] 1 := Regular []]> (delete (frame_path [] 7) sample_fs))
          [] [].

(** Eighteen frames of one size, two pixels wide. *)
Definition sample_world_uniform : World :=
  mkWorld (<[mkPath "" ["screenshots"] := Directory 4096]>
             (list_to_map (sample_entries (λ i, [byte_of 2; byte_of i]) (range 1 19))))
          [] [].

(** What the full plan and the subrange plan read from the sample frame
    directory, what they hand to the writer, and what the toy writer makes
    of it. *)
Definition sample_images : list Image :=
  Eval vm_compute in
    default [] (plan_images sample_decode [] sample_fs all_indices).
Definition sample_worktree_images : list Image :=
  Eval vm_compute in take 5 (drop 8 sample_images).

Definition frames_or_nothing (r : Res (list Image)) : list Image :=
  match r with Ok l => l | Raise _ => [] end.
Definition data_or_nothing (r : WriteResult) : list byte :=
  match r with Wrote d => d | Broke _ _ => [] end.

Definition sample_demo_first : Image :=
  Eval vm_compute in
    default img_small (head (frames_or_nothing (normalize sample_images))).
Definition sample_demo_rest : list Image :=
  Eval vm_compute in drop 1 (frames_or_nothing (normalize sample_images)).
Definition sample_worktree_first : Image :=
  Eval vm_compute in
    default img_small (head (frames_or_nothing (normalize sample_worktree_images))).
Definition sample_worktree_rest : list Image :=
  Eval vm_compute in
    drop 1 (frames_or_nothing (normalize sample_worktree_images)).
Definition sample_demo_data : list byte :=
  Eval vm_compute in
    data_or_nothing
      (sample_writer false sample_demo_first sample_demo_rest
         [833; 500; 666; 1000; 833; 400; 400; 1166; 666;
          500; 833; 666; 1000; 400; 400; 666; 666; 1166] 0).
Definition sample_worktree_data : list byte :=
  Eval vm_compute in
    data_or_nothing
      (sample_writer false sample_worktree_first sample_worktree_rest
         [666; 500; 833; 666; 1000] 0).

(** The two calls of [Image.save] a run over the uniform frames makes. *)
Definition no_call : SaveCall := mkSaveCall (mkPath "" []) img_small [] [] 0.
Definition sample_uniform_call1 : SaveCall :=
  Eval vm_compute in
    default no_call
      (saves (main sample_decode sample_writer [] sample_world_uniform).2 !! 0%nat).
Definition sample_uniform_call2 : SaveCall :=
  Eval vm_compute in
    default no_call
      (saves (main sample_decode sample_writer [] sample_world_uniform).2 !! 1%nat).

Close Scope Z_scope.

(** * Properties *)

(** ** Python helpers *)

Lemma mapM_Res_fmap {A B} (f : A → Res B) (g : A → B) (l : list A) :
  (∀ x, x ∈ l → f x = Ok (g x)) → mapM f l = Ok (g <$> l).
Proof.
  induction l as [|a l IH]; intros Hf; [done|].
  cbn. rewrite (Hf a) by left. cbn.
  rewrite IH; [done|]. intros x Hx. apply Hf. by right.
Qed.

Lemma floordiv_nonzero (a b : Z) : b ≠ 0%Z → floordiv a b = Ok (a `div` b)%Z.
Proof. intros Hb. unfold floordiv. by rewrite decide_False. Qed.

Lemma py_index_in_range {A} (l : list A) (i : Z) (x : A) :
  (0 ≤ i)%Z → l !! Z.to_nat i = Some x → py_index l i = Ok x.
Proof.
  intros Hi Hx. unfold py_index.
  pose proof (lookup_lt_Some _ _ _ Hx) as Hlt. cbv zeta.
  rewrite (decide_False (P := (i < 0)%Z)) by lia.
  rewrite decide_True by lia.
  by rewrite Hx.
Qed.

Lemma py_index_nil {A} (i : Z) : py_index ([] : list A) i = Raise IndexError.
Proof.
  unfold py_index. cbn.
  destruct (decide (i < 0)%Z); rewrite decide_False; (done || lia).
Qed.

Lemma foldl_max_ge (l : list nat) (a : nat) :
  a ≤ foldl Nat.max a l ∧ ∀ x, x ∈ l → x ≤ foldl Nat.max a l.
Proof.
  revert a. induction l as [|b l IH]; intros a; cbn.
  - split; [lia|]. intros x Hx. inversion Hx.
  - destruct (IH (a `max` b)) as [H1 H2]. split; [lia|].
    intros x Hx. apply elem_of_cons in Hx as [->|Hx]; [lia|by apply H2].
Qed.

Lemma foldl_max_elem (l : list nat) (a : nat) : foldl Nat.max a l ∈ a :: l.
Proof.
  revert a. induction l as [|b l IH]; intros a; cbn; [by left|].
  specialize (IH (a `max` b)).
  apply elem_of_cons in IH as [Heq|Hin].
  - rewrite Heq. destruct (Nat.max_spec a b) as [[_ ->]|[_ ->]].
    + right; by left.
    + by left.
  - right; by right.
Qed.

Lemma py_max_is_max (l : list nat) :
  l ≠ [] → ∃ m, py_max l = Ok m ∧ is_max m l.
Proof.
  destruct l as [|a l]; [done|]. intros _.
  exists (foldl Nat.max a l). split; [done|]. split.
  - apply foldl_max_elem.
  - intros x Hx. destruct (foldl_max_ge l a) as [H1 H2].
    apply elem_of_cons in Hx as [->|Hx]; [done|by apply H2].
Qed.

Lemma is_max_unique (l : list nat) (m m' : nat) :
  is_max m l → is_max m' l → m = m'.
Proof.
  intros [Hin Hle] [Hin' Hle'].
  apply Hle' in Hin. apply Hle in Hin'. lia.
Qed.

(** ** Duration tables *)

Lemma derive_durations_fmap (s : Z) (base : list Z) :
  s ≠ 0%Z →
  derive_durations s base = Ok ((λ d, 50 `max` (d `div` s))%Z <$> base).
Proof.
  intros Hs. unfold derive_durations. apply mapM_Res_fmap.
  intros d _. by rewrite floordiv_nonzero.
Qed.

Lemma select_durations_fmap (durs : list Z) (frames : list Z) :
  (∀ i, i ∈ frames → (1 ≤ i ≤ Z.of_nat (length durs))%Z) →
  select_durations durs frames
  = Ok ((λ i, default 0%Z (durs !! Z.to_nat (i - 1))) <$> frames).
Proof.
  intros Hr. unfold select_durations. apply mapM_Res_fmap.
  intros i Hi. apply Hr in Hi.
  destruct (lookup_lt_is_Some_2 durs (Z.to_nat (i - 1))) as [d Hd]; [lia|].
  rewrite Hd. cbn. apply py_index_in_range; [lia|done].
Qed.

(** C1: for every speed [s >= 1] the derivation succeeds, entry by entry
    the derived duration is [max(50, b // s)] with floor division, and so no
    derived duration is below 50 ms; the deployed table is the derivation
    at [SPEED]. *)
Theorem derived_durations_floor (s : Z) (Hs : (1 ≤ s)%Z) :
  ∃ ds, derive_durations s base_durations = Ok ds
    ∧ length ds = length base_durations
    ∧ (∀ i b, base_durations !! i = Some b →
         ds !! i = Some (50 `max` (b `div` s))%Z)
    ∧ (∀ d, d ∈ ds → (50 ≤ d)%Z)
    ∧ (s = SPEED → durations = Ok ds).
Proof.
  eexists. split; [apply derive_durations_fmap; lia|].
  split; [by rewrite length_fmap|].
  split; [|split].
  - intros i b Hb. by rewrite list_lookup_fmap, Hb.
  - intros d Hd. apply list_elem_of_fmap in Hd as (b & -> & _). lia.
  - intros ->. unfold durations. apply derive_durations_fmap. done.
Qed.

Lemma derived_durations_floor_witness :
  ∃ ds, derive_durations 3 base_durations = Ok ds
    ∧ length ds = length base_durations
    ∧ (∀ i b, base_durations !! i = Some b →
         ds !! i = Some (50 `max` (b `div` 3))%Z)
    ∧ (∀ d, d ∈ ds → (50 ≤ d)%Z)
    ∧ (3%Z = SPEED → durations = Ok ds).
Proof. apply (derived_durations_floor 3). lia. Defined.

(** C7: at speed 1 the derived table is the baseline table, entry for
    entry; every baseline entry is at least 50, so the floor changes
    nothing. *)
Theorem speed_one_reproduces_base :
  derive_durations 1 base_durations = Ok base_durations
  ∧ length base_durations = 18
  ∧ Forall (λ b, (50 ≤ b)%Z) base_durations.
Proof.
  split; [reflexivity|]. split; [reflexivity|].
  unfold base_durations. repeat constructor; lia.
Qed.

(** C4: the subrange plan's durations are the derived table read at
    positions 9 to 13, in order: entry [j] is the derived duration at
    position [WORKTREE_FRAMES[j]] (index [i - 1] of the table), whatever
    the speed; there are as many as selected frames. *)
Theorem worktree_durations_positional (s : Z) (Hs : (1 ≤ s)%Z) :
  ∃ ds l, derive_durations s base_durations = Ok ds
    ∧ select_durations ds WORKTREE_FRAMES = Ok l
    ∧ WORKTREE_FRAMES = [9; 10; 11; 12; 13]%Z
    ∧ length l = length WORKTREE_FRAMES
    ∧ (∀ j i, WORKTREE_FRAMES !! j = Some i →
         is_Some (l !! j) ∧ l !! j = ds !! Z.to_nat (i - 1))
    ∧ (s = SPEED → durations = Ok ds ∧ worktree_durations = Ok l).
Proof.
  assert (Hsel : ∀ ds : list Z, length ds = 18 →
    select_durations ds WORKTREE_FRAMES
    = Ok ((λ i, default 0%Z (ds !! Z.to_nat (i - 1))) <$> WORKTREE_FRAMES)).
  { intros ds Hlen. apply select_durations_fmap. intros i Hi. rewrite Hlen.
    unfold WORKTREE_FRAMES, range in Hi. apply elem_of_seqZ in Hi. lia. }
  pose (ds := (λ d, 50 `max` (d `div` s))%Z <$> base_durations).
  assert (Hd : derive_durations s base_durations = Ok ds)
    by (apply derive_durations_fmap; lia).
  assert (Hlen : length ds = 18) by (unfold ds; by rewrite length_fmap).
  clearbody ds.
  exists ds. eexists. split; [exact Hd|].
  split; [by apply Hsel|].
  split; [reflexivity|].
  split; [by rewrite length_fmap|].
  split.
  - intros j i Hi. rewrite list_lookup_fmap, Hi.
    assert (Hr : (9 ≤ i < 14)%Z).
    { apply list_elem_of_lookup_2 in Hi.
      unfold WORKTREE_FRAMES, range in Hi. apply elem_of_seqZ in Hi. lia. }
    destruct (lookup_lt_is_Some_2 ds (Z.to_nat (i - 1))) as [d Hdd]; [lia|].
    cbn. rewrite Hdd. split; [by eexists|done].
  - intros ->. unfold worktree_durations, durations. rewrite Hd.
    split; [done|]. by apply Hsel.
Qed.

Lemma worktree_durations_positional_witness :
  ∃ ds l, derive_durations 3 base_durations = Ok ds
    ∧ select_durations ds WORKTREE_FRAMES = Ok l
    ∧ WORKTREE_FRAMES = [9; 10; 11; 12; 13]%Z
    ∧ length l = length WORKTREE_FRAMES
    ∧ (∀ j i, WORKTREE_FRAMES !! j = Some i →
         is_Some (l !! j) ∧ l !! j = ds !! Z.to_nat (i - 1))
    ∧ (3%Z = SPEED → durations = Ok ds ∧ worktree_durations = Ok l).
Proof. apply (worktree_durations_positional 3). lia. Defined.

(** ** Rasters *)

Section Rows.
Context {P : Type}.
Implicit Types (src dst : list P) (S D : list (list P)).

Lemma rows_fit_spec (w h : nat) (D : list (list P)) :
  rows_fit w h D ↔ length D = h ∧ ∀ y r, D !! y = Some r → length r = w.
Proof.
  unfold rows_fit. rewrite andb_True, bool_decide_spec, forallb_True.
  rewrite Forall_lookup. split; intros [H1 H2]; split; try done.
  - intros y r Hr. apply H2 in Hr. by apply bool_decide_unpack in Hr.
  - intros y r Hr. apply bool_decide_pack. by eapply H2.
Qed.

Lemma length_paste_row (ox : nat) src dst :
  length (paste_row ox src dst) = length dst.
Proof.
  unfold paste_row. rewrite !length_app, !length_take, length_drop. lia.
Qed.

Lemma paste_row_origin_inside src dst (x : nat) :
  x < length src → x < length dst →
  paste_row 0 src dst !! x = src !! x.
Proof.
  intros Hs Hd. unfold paste_row. rewrite take_0, app_nil_l, Nat.sub_0_r, Nat.add_0_l.
  rewrite lookup_app_l by (rewrite length_take; lia).
  apply lookup_take_lt. lia.
Qed.

Lemma paste_row_origin_outside src dst (x : nat) :
  length src ≤ x → paste_row 0 src dst !! x = dst !! x.
Proof.
  intros Hs. unfold paste_row. rewrite take_0, app_nil_l, Nat.sub_0_r, Nat.add_0_l.
  destruct (decide (length src ≤ length dst)) as [Hle|Hgt].
  - rewrite take_ge by done. rewrite lookup_app_r by done.
    rewrite lookup_drop. f_equal. lia.
  - rewrite (lookup_ge_None_2 dst) by lia.
    apply lookup_ge_None_2.
    rewrite length_app, length_take, length_drop. lia.
Qed.

Lemma length_paste_rows (box : nat * nat) S D :
  length (paste_rows box S D) = length D.
Proof.
  unfold paste_rows.
  rewrite !length_app, length_take, length_zip_with, !length_drop. lia.
Qed.

Lemma paste_rows_origin_inside S D (y : nat) src dst :
  S !! y = Some src → D !! y = Some dst →
  paste_rows (0, 0) S D !! y = Some (paste_row 0 src dst).
Proof.
  intros Hs Hd. unfold paste_rows. cbn [fst snd]. rewrite take_0, drop_0, app_nil_l, Nat.add_0_l.
  apply lookup_app_l_Some. rewrite lookup_zip_with, Hs. cbn. by rewrite Hd.
Qed.

Lemma paste_rows_origin_below S D (y : nat) :
  length S ≤ y → paste_rows (0, 0) S D !! y = D !! y.
Proof.
  intros Hy. unfold paste_rows. cbn [fst snd]. rewrite take_0, drop_0, app_nil_l, Nat.add_0_l.
  destruct (decide (length S ≤ length D)) as [Hle|Hgt].
  - rewrite lookup_app_r by (rewrite length_zip_with; lia).
    rewrite length_zip_with, lookup_drop. f_equal. lia.
  - rewrite (lookup_ge_None_2 D) by lia.
    apply lookup_ge_None_2.
    rewrite length_app, length_zip_with, length_drop. lia.
Qed.

Lemma paste_rows_fit (w h : nat) (box : nat * nat) S D :
  rows_fit w h D → rows_fit w h (paste_rows box S D).
Proof.
  rewrite !rows_fit_spec. intros [Hh Hw]. split.
  - by rewrite length_paste_rows.
  - intros y r. unfold paste_rows. rewrite !lookup_app_Some.
    intros [Hr|[_ [Hr|[_ Hr]]]].
    + apply lookup_take_Some in Hr as [Hr _]. by eapply Hw.
    + apply lookup_zip_with_Some in Hr as (s & d & -> & _ & Hr).
      rewrite length_paste_row. rewrite lookup_drop in Hr. by eapply Hw.
    + rewrite lookup_drop in Hr. by eapply Hw.
Qed.

Lemma replicate_rows_fit (w h : nat) (c : P) :
  rows_fit w h (replicate h (replicate w c)).
Proof.
  apply rows_fit_spec. split; [apply length_replicate|].
  intros y r [-> _]%lookup_replicate. apply length_replicate.
Qed.
End Rows.

Lemma fmap_rows_fit {P Q} (f : P → Q) (w h : nat) (D : list (list P)) :
  rows_fit w h D → rows_fit w h (fmap (M:=list) f <$> D).
Proof.
  rewrite !rows_fit_spec. intros [Hh Hw]. split; [by rewrite length_fmap|].
  intros y r Hr.
  rewrite list_lookup_fmap in Hr.
  destruct (D !! y) as [r0|] eqn:Hy; [|done]. cbn in Hr.
  injection Hr as <-. rewrite length_fmap. by eapply Hw.
Qed.

(** ** Images *)

Lemma convert_size (m : Mode) (im : Image) :
  width (convert m im) = width im ∧ height (convert m im) = height im.
Proof. unfold convert. by destruct m, (raster im). Qed.

Lemma convert_mode (m : Mode) (im : Image) : mode (convert m im) = m.
Proof.
  unfold convert, mode. destruct m, (raster im) eqn:Hr; cbn; by rewrite ?Hr.
Qed.

Lemma convert_same_mode (im : Image) : convert (mode im) im = im.
Proof. unfold convert, mode. by destruct (raster im). Qed.

Lemma convert_wf (m : Mode) (im : Image) :
  wf_image im → wf_image (convert m im).
Proof.
  unfold convert, wf_image.
  destruct m, (raster im) eqn:Hr; cbn; rewrite ?Hr; try done;
    apply fmap_rows_fit.
Qed.

Lemma convert_RGB_rgb_at (im : Image) (x y : nat) :
  rgb_at (convert RGB im) x y = rgb_at im x y.
Proof.
  unfold convert, rgb_at. destruct (raster im) as [rows|rows] eqn:Hr; cbn.
  - by rewrite Hr.
  - rewrite list_lookup_fmap. destruct (rows !! y) as [r|]; [|done]. cbn.
    by rewrite list_lookup_fmap.
Qed.

Lemma wf_rgb_at_inside (im : Image) (x y : nat) :
  wf_image im → x < width im → y < height im → is_Some (rgb_at im x y).
Proof.
  unfold wf_image, rgb_at. intros Hwf Hx Hy.
  destruct (raster im) as [rows|rows]; apply rows_fit_spec in Hwf as [Hh Hw].
  - destruct (lookup_lt_is_Some_2 rows y) as [r Hr]; [lia|].
    rewrite Hr. cbn. apply lookup_lt_is_Some_2. rewrite (Hw _ _ Hr). lia.
  - destruct (lookup_lt_is_Some_2 rows y) as [r Hr]; [lia|].
    rewrite Hr. cbn. apply fmap_is_Some, lookup_lt_is_Some_2.
    rewrite (Hw _ _ Hr). lia.
Qed.

Lemma convert_RGB_raster (im : Image) :
  ∃ s, raster (convert RGB im) = RasterRGB s
    ∧ (wf_image im → rows_fit (width im) (height im) s)
    ∧ ∀ x y : nat, s !! y ≫= (.!! x) = rgb_at im x y.
Proof.
  pose proof (convert_RGB_rgb_at im) as Hat.
  pose proof (convert_wf RGB im) as Hwf.
  pose proof (convert_mode RGB im) as Hm.
  destruct (convert_size RGB im) as [Hw Hh].
  unfold rgb_at at 1 in Hat. unfold wf_image at 2 in Hwf. unfold mode in Hm.
  destruct (raster (convert RGB im)) as [s|s]; [|done].
  exists s. rewrite Hw, Hh in Hwf. by split.
Qed.

Lemma paste_on_new (mw mh : nat) (c : RGBPixel) (img : Image) (box : nat * nat)
    (s : list (list RGBPixel)) :
  raster (convert RGB img) = RasterRGB s →
  paste (Image_new_RGB (mw, mh) c) img box
  = mkImage mw mh (RasterRGB (paste_rows box s (replicate mh (replicate mw c)))).
Proof.
  intros Hs. unfold paste.
  change (mode (Image_new_RGB (mw, mh) c)) with RGB.
  rewrite Hs. reflexivity.
Qed.

Section Canvas.
Variables (mw mh : nat) (c : RGBPixel) (img : Image).

Let canvas : Image := paste (Image_new_RGB (mw, mh) c) img (0, 0).

Lemma paste_canvas_shape :
  width canvas = mw ∧ height canvas = mh ∧ mode canvas = RGB
  ∧ wf_image canvas.
Proof.
  destruct (convert_RGB_raster img) as (s & Hs & _ & _).
  unfold canvas. rewrite (paste_on_new _ _ _ _ _ s Hs).
  unfold mode, wf_image. cbn [width height raster].
  repeat split. apply paste_rows_fit, replicate_rows_fit.
Qed.

Hypothesis Hwf : wf_image img.
Hypothesis Hw : width img ≤ mw.
Hypothesis Hh : height img ≤ mh.

Lemma paste_canvas_inside (x y : nat) :
  x < width img → y < height img →
  rgb_at canvas x y = rgb_at img x y.
Proof using Hwf Hw Hh.
  intros Hx Hy.
  destruct (convert_RGB_raster img) as (s & Hs & Hfit & Hat).
  apply Hfit, rows_fit_spec in Hwf as [Hlen Hrow].
  rewrite <- Hat. unfold canvas. rewrite (paste_on_new _ _ _ _ _ s Hs).
  unfold rgb_at. cbn [raster].
  destruct (lookup_lt_is_Some_2 s y) as [srow Hsrow]; [lia|].
  rewrite (paste_rows_origin_inside _ _ _ srow (replicate mw c)); try done.
  - rewrite Hsrow. cbn. apply paste_row_origin_inside.
    + rewrite (Hrow _ _ Hsrow). lia.
    + rewrite length_replicate. lia.
  - apply lookup_replicate_2. lia.
Qed.

Lemma paste_canvas_outside (x y : nat) :
  x < mw → y < mh → ¬ (x < width img ∧ y < height img) →
  rgb_at canvas x y = Some c.
Proof using Hwf Hw Hh.
  intros Hx Hy Hout.
  destruct (convert_RGB_raster img) as (s & Hs & Hfit & _).
  apply Hfit, rows_fit_spec in Hwf as [Hlen Hrow].
  unfold canvas. rewrite (paste_on_new _ _ _ _ _ s Hs).
  unfold rgb_at. cbn [raster].
  destruct (decide (y < height img)) as [Hin|Hbelow].
  - destruct (lookup_lt_is_Some_2 s y) as [srow Hsrow]; [lia|].
    rewrite (paste_rows_origin_inside _ _ _ srow (replicate mw c)); try done.
    + cbn. rewrite paste_row_origin_outside.
      * apply lookup_replicate_2. lia.
      * rewrite (Hrow _ _ Hsrow). lia.
    + apply lookup_replicate_2. lia.
  - rewrite paste_rows_origin_below by lia.
    rewrite lookup_replicate_2 by lia. cbn. apply lookup_replicate_2. lia.
Qed.
End Canvas.

(** ** Canvas normaliser *)

Lemma normalize_one_match (mw mh : nat) (img : Image) :
  width img = mw → height img = mh →
  normalize_one mw mh img = convert RGB img.
Proof.
  intros Hw Hh. unfold normalize_one.
  by rewrite !bool_decide_eq_true_2.
Qed.

Lemma normalize_one_pad (mw mh : nat) (img : Image) :
  width img ≠ mw ∨ height img ≠ mh →
  normalize_one mw mh img
  = paste (Image_new_RGB (mw, mh) background) img (0, 0).
Proof.
  intros Hne. unfold normalize_one.
  destruct Hne as [Hne|Hne].
  - by rewrite (bool_decide_eq_false_2 _ Hne).
  - rewrite (bool_decide_eq_false_2 _ Hne). by rewrite andb_false_r.
Qed.

Lemma normalize_one_shape (mw mh : nat) (img : Image) :
  wf_image img →
  width (normalize_one mw mh img) = mw
  ∧ height (normalize_one mw mh img) = mh
  ∧ mode (normalize_one mw mh img) = RGB
  ∧ wf_image (normalize_one mw mh img).
Proof.
  intros Hwf.
  destruct (decide (width img = mw ∧ height img = mh)) as [[Hw Hh]|Hne].
  - rewrite normalize_one_match by done.
    destruct (convert_size RGB img) as [-> ->].
    repeat split; try done; [apply convert_mode|by apply convert_wf].
  - rewrite normalize_one_pad by (destruct (decide (width img = mw)); tauto).
    apply paste_canvas_shape.
Qed.

Lemma normalize_fmap (images : list Image) :
  images ≠ [] →
  ∃ mw mh, is_max mw (width <$> images) ∧ is_max mh (height <$> images)
    ∧ normalize images = Ok (normalize_one mw mh <$> images).
Proof.
  intros Hne. unfold normalize.
  destruct (py_max_is_max (width <$> images)) as (mw & Hmw & Hw).
  { by destruct images. }
  destruct (py_max_is_max (height <$> images)) as (mh & Hmh & Hh).
  { by destruct images. }
  exists mw, mh. by rewrite Hmw, Hmh.
Qed.

Lemma is_max_bound {A} (f : A → nat) (l : list A) (m : nat) (i : nat) (a : A) :
  is_max m (f <$> l) → l !! i = Some a → f a ≤ m.
Proof.
  intros [_ Hle] Ha. apply Hle, list_elem_of_fmap.
  exists a. split; [done|]. by eapply list_elem_of_lookup_2.
Qed.

Lemma normalize_one_dims (mw mh : nat) (img : Image) :
  width (normalize_one mw mh img) = mw
  ∧ height (normalize_one mw mh img) = mh
  ∧ mode (normalize_one mw mh img) = RGB.
Proof.
  destruct (decide (width img = mw ∧ height img = mh)) as [[Hw Hh]|Hne].
  - rewrite normalize_one_match by done.
    destruct (convert_size RGB img) as [-> ->].
    repeat split; try done. apply convert_mode.
  - rewrite normalize_one_pad by (destruct (decide (width img = mw)); tauto).
    destruct (paste_canvas_shape mw mh background img) as (? & ? & ? & _).
    done.
Qed.

Lemma normalize_one_inside (mw mh : nat) (img : Image) (x y : nat) :
  wf_image img → width img ≤ mw → height img ≤ mh →
  x < width img → y < height img →
  rgb_at (normalize_one mw mh img) x y = rgb_at img x y.
Proof.
  intros Hwf Hw Hh Hx Hy.
  destruct (decide (width img = mw ∧ height img = mh)) as [[Hw' Hh']|Hne].
  - rewrite normalize_one_match by done. apply convert_RGB_rgb_at.
  - rewrite normalize_one_pad by (destruct (decide (width img = mw)); tauto).
    by apply paste_canvas_inside.
Qed.

Lemma wf_rgb_at_Some (im : Image) (x y : nat) (p : RGBPixel) :
  wf_image im → rgb_at im x y = Some p → x < width im ∧ y < height im.
Proof.
  unfold wf_image, rgb_at. intros Hwf Hp.
  destruct (raster im) as [rows|rows]; apply rows_fit_spec in Hwf as [Hh Hw];
    destruct (rows !! y) as [r|] eqn:Hr; try done; cbn in Hp;
    pose proof (lookup_lt_Some _ _ _ Hr) as Hy;
    destruct (r !! x) as [q|] eqn:Hq; try done;
    pose proof (lookup_lt_Some _ _ _ Hq) as Hx;
    rewrite (Hw _ _ Hr) in Hx; lia.
Qed.

Lemma fmap_fixed {A} (f : A → A) (l : list A) :
  (∀ a, a ∈ l → f a = a) → f <$> l = l.
Proof.
  induction l as [|a l IH]; intros Hf; [done|].
  cbn. rewrite (Hf a) by left. f_equal. apply IH.
  intros b Hb. apply Hf. by right.
Qed.

(** C2: on a non-empty sequence the normaliser returns as many images, in
    the same positions; every output has the maximum input width and the
    maximum input height (declared and stored), is RGB, and shows the
    input's colours over the input's extent; an input already of the
    maximum size is returned converted to RGB, its colours unchanged
    everywhere. *)
Theorem normalize_same_length_max_size (images : list Image)
    (Hne : images ≠ []) (Hwf : Forall wf_image images) :
  ∃ out mw mh, normalize images = Ok out
    ∧ is_max mw (width <$> images) ∧ is_max mh (height <$> images)
    ∧ length out = length images
    ∧ ∀ i img, images !! i = Some img →
        ∃ o, out !! i = Some o
          ∧ width o = mw ∧ height o = mh ∧ wf_image o ∧ mode o = RGB
          ∧ (∀ x y, x < width img → y < height img →
               rgb_at o x y = rgb_at img x y)
          ∧ (width img = mw → height img = mh →
               o = convert RGB img ∧ ∀ x y, rgb_at o x y = rgb_at img x y).
Proof.
  destruct (normalize_fmap images Hne) as (mw & mh & Hmw & Hmh & Hn).
  exists (normalize_one mw mh <$> images), mw, mh.
  split; [done|]. split; [done|]. split; [done|].
  split; [by rewrite length_fmap|].
  intros i img Hi. exists (normalize_one mw mh img).
  rewrite list_lookup_fmap, Hi. split; [done|].
  assert (Hwfi : wf_image img) by (by eapply Forall_lookup_1 in Hwf).
  destruct (normalize_one_shape mw mh img Hwfi) as (Hw & Hh & Hm & Hwfo).
  repeat split; try done.
  - intros x y Hx Hy. apply normalize_one_inside; try done.
    + by eapply is_max_bound.
    + by eapply (is_max_bound height).
  - by apply normalize_one_match.
  - intros x y. rewrite normalize_one_match by done.
    apply convert_RGB_rgb_at.
Qed.

(** C3: an input smaller than the maximum size comes out with its own
    colours on the rectangle from the origin to its width and height, and
    the fill colour (30, 30, 30) at every other position of the canvas. *)
Theorem normalize_pads_smaller (images : list Image) (i : nat) (img : Image)
    (Hwf : Forall wf_image images) (Hi : images !! i = Some img) :
  ∃ out o mw mh, normalize images = Ok out ∧ out !! i = Some o
    ∧ is_max mw (width <$> images) ∧ is_max mh (height <$> images)
    ∧ (width img < mw ∨ height img < mh →
       ∀ x y,
         (x < width img → y < height img →
            is_Some (rgb_at img x y) ∧ rgb_at o x y = rgb_at img x y)
         ∧ (x < mw → y < mh → ¬ (x < width img ∧ y < height img) →
            rgb_at o x y = Some (30, 30, 30)%Z)).
Proof.
  assert (Hne : images ≠ []) by (intros ->; done).
  destruct (normalize_fmap images Hne) as (mw & mh & Hmw & Hmh & Hn).
  exists (normalize_one mw mh <$> images), (normalize_one mw mh img), mw, mh.
  split; [done|]. split; [by rewrite list_lookup_fmap, Hi|].
  split; [done|]. split; [done|].
  intros Hsmall x y.
  assert (Hwfi : wf_image img) by (by eapply Forall_lookup_1 in Hwf).
  assert (Hw : width img ≤ mw) by (by eapply is_max_bound).
  assert (Hh : height img ≤ mh) by (by eapply (is_max_bound height)).
  rewrite normalize_one_pad by lia. split.
  - intros Hx Hy. split; [by apply wf_rgb_at_inside|].
    by apply paste_canvas_inside.
  - intros Hx Hy Hout. by apply (paste_canvas_outside mw mh background).
Qed.

(** C9: a smaller frame is pasted without a mask: wherever the frame stores
    colour [p] with any alpha [a], the composite is RGB, has no alpha there,
    and shows exactly [p]. *)
Theorem paste_ignores_alpha (mw mh : nat) (img : Image) (x y : nat)
    (p : RGBPixel) (a : Z)
    (Hwf : wf_image img) (Hw : width img ≤ mw) (Hh : height img ≤ mh)
    (Hsmall : width img < mw ∨ height img < mh)
    (Hp : rgb_at img x y = Some p) (Ha : alpha_at img x y = Some a) :
  normalize_one mw mh img
  = paste (Image_new_RGB (mw, mh) (30, 30, 30)%Z) img (0, 0)
  ∧ mode (normalize_one mw mh img) = RGB
  ∧ alpha_at (normalize_one mw mh img) x y = None
  ∧ rgb_at (normalize_one mw mh img) x y = Some p.
Proof.
  destruct (wf_rgb_at_Some img x y p Hwf Hp) as [Hx Hy].
  destruct (normalize_one_dims mw mh img) as (_ & _ & Hm).
  split; [apply normalize_one_pad; lia|]. split; [done|]. split.
  - unfold alpha_at. unfold mode in Hm.
    by destruct (raster (normalize_one mw mh img)).
  - rewrite <- Hp. by apply normalize_one_inside.
Qed.

(** C6: normalising is idempotent: the result of normalising a non-empty
    sequence is a fixed point of the normaliser, and a sequence whose images
    all have the maximum width and height comes back with the same sizes
    and the same colours. *)
Theorem normalize_idempotent (images : list Image) (Hne : images ≠ []) :
  ∃ out, normalize images = Ok out ∧ normalize out = Ok out
    ∧ ((∀ img, img ∈ images →
          is_max (width img) (width <$> images)
          ∧ is_max (height img) (height <$> images)) →
       ∀ i img, images !! i = Some img →
         ∃ o, out !! i = Some o
           ∧ width o = width img ∧ height o = height img
           ∧ ∀ x y, rgb_at o x y = rgb_at img x y).
Proof.
  destruct (normalize_fmap images Hne) as (mw & mh & Hmw & Hmh & Hn).
  set (out := normalize_one mw mh <$> images) in *.
  assert (Hdims : ∀ o, o ∈ out → width o = mw ∧ height o = mh ∧ mode o = RGB).
  { intros o (img & -> & _)%list_elem_of_fmap. apply normalize_one_dims. }
  exists out. split; [done|]. split.
  - assert (Hne' : out ≠ []) by (unfold out; by destruct images).
    destruct (normalize_fmap out Hne') as (mw' & mh' & Hmw' & Hmh' & ->).
    assert (mw' = mw) as ->.
    { destruct Hmw' as [(o & -> & Ho)%list_elem_of_fmap _].
      by apply Hdims in Ho as (? & _). }
    assert (mh' = mh) as ->.
    { destruct Hmh' as [(o & -> & Ho)%list_elem_of_fmap _].
      by apply Hdims in Ho as (_ & ? & _). }
    f_equal. apply fmap_fixed. intros o Ho.
    apply Hdims in Ho as (Hw & Hh & Hm).
    rewrite normalize_one_match by done.
    rewrite <- Hm. apply convert_same_mode.
  - intros Hall i img Hi. exists (normalize_one mw mh img).
    split; [unfold out; by rewrite list_lookup_fmap, Hi|].
    destruct (Hall img) as [Hw Hh]; [by eapply list_elem_of_lookup_2|].
    rewrite (normalize_one_match mw mh img)
      by (eapply is_max_unique; eassumption).
    destruct (convert_size RGB img) as [-> ->].
    split; [done|]. split; [done|]. apply convert_RGB_rgb_at.
Qed.

(** ** The world monad *)

Lemma bind_Returned {A B} (m : M A) (f : A → M B) (w w' : World) (a : A) :
  m w = (Returned a, w') → (m ≫= f) w = f a w'.
Proof. intros H. unfold mbind, M_bind. by rewrite H. Qed.

Lemma bind_Raised {A B} (m : M A) (f : A → M B) (w w' : World) (e : Exn) :
  m w = (Raised e, w') → (m ≫= f) w = (Raised e, w').
Proof. intros H. unfold mbind, M_bind. by rewrite H. Qed.

Lemma bind_Exited {A B} (m : M A) (f : A → M B) (w w' : World) (c : Z) :
  m w = (Exited c, w') → (m ≫= f) w = (Exited c, w').
Proof. intros H. unfold mbind, M_bind. by rewrite H. Qed.

Lemma lift_Ok {A} (r : Res A) (a : A) (w : World) :
  r = Ok a → lift r w = (Returned a, w).
Proof. by intros ->. Qed.

Lemma lift_Raise {A} (r : Res A) (e : Exn) (w : World) :
  r = Raise e → lift r w = (Raised e, w).
Proof. by intros ->. Qed.

(** ** Frame loader *)

Section Loader.
Variable decode_rgba : list byte → Res Decoded.
Variable argv : list Path.

Lemma frame_image_Some (m : gmap Path Entry) (i : Z) (img : Image) :
  frame_image decode_rgba argv m i = Some img ↔
  ∃ data d, m !! frame_path argv i = Some (Regular data)
            ∧ decode_rgba data = Ok d ∧ img = rgba_image d.
Proof.
  unfold frame_image. split.
  - destruct (m !! frame_path argv i) as [[size|data]|]; try done.
    destruct (decode_rgba data) as [d|e] eqn:Hd; [|done].
    intros [= <-]. by exists data, d.
  - intros (data & d & -> & -> & ->). done.
Qed.

Lemma load_frame_decodes (i : Z) (w : World) (img : Image) :
  frame_image decode_rgba argv (fs w) i = Some img →
  load_frame decode_rgba argv i w = (Returned img, w).
Proof.
  intros (data & d & Hf & Hd & ->)%frame_image_Some.
  unfold load_frame, path_exists, Image_open_RGBA.
  unfold mbind, M_bind, mret, M_ret.
  rewrite bool_decide_eq_true_2 by (by rewrite Hf).
  by rewrite Hf, Hd.
Qed.

Lemma load_frame_missing (i : Z) (w : World) :
  fs w !! frame_path argv i = None →
  load_frame decode_rgba argv i w
  = (Exited 1, mkWorld (fs w)
       (stdout w ++ ["Missing: " +:+ path_str (frame_path argv i)]) (saves w)).
Proof.
  intros Hf. unfold load_frame, path_exists, print, sys_exit.
  unfold mbind, M_bind.
  rewrite bool_decide_eq_false_2; [done|]. rewrite Hf. by intros [? ?].
Qed.

Lemma load_frame_unreadable (i : Z) (w : World) :
  is_Some (fs w !! frame_path argv i) →
  frame_image decode_rgba argv (fs w) i = None →
  ∃ e, load_frame decode_rgba argv i w = (Raised e, w).
Proof.
  intros Hsome Hnone.
  unfold load_frame, path_exists, Image_open_RGBA.
  unfold mbind, M_bind, mret, M_ret.
  rewrite bool_decide_eq_true_2 by done.
  unfold frame_image in Hnone.
  destruct (fs w !! frame_path argv i) as [[size|data]|].
  - by eexists.
  - destruct (decode_rgba data) as [d|e]; [done|by eexists].
  - by destruct Hsome.
Qed.

Lemma load_frames_cons_Returned (i : Z) (l : list Z) (w w' w'' : World)
    (img : Image) (imgs : list Image) :
  load_frame decode_rgba argv i w = (Returned img, w') →
  load_frames decode_rgba argv l w' = (Returned imgs, w'') →
  load_frames decode_rgba argv (i :: l) w = (Returned (img :: imgs), w'').
Proof.
  intros H1 H2. unfold load_frames in *. cbn [mapM].
  rewrite (bind_Returned _ _ _ _ _ H1).
  by rewrite (bind_Returned _ _ _ _ _ H2).
Qed.

Lemma load_frames_decodes (l : list Z) (w : World) (imgs : list Image) :
  plan_images decode_rgba argv (fs w) l = Some imgs →
  load_frames decode_rgba argv l w = (Returned imgs, w).
Proof.
  intros Hp%mapM_Some_1.
  induction Hp as [|i img l imgs Hi _ IH]; [done|].
  eapply load_frames_cons_Returned; [by apply load_frame_decodes|done].
Qed.

Lemma load_frames_stops_Exited (l1 l2 : list Z) (j : Z) (w w' : World)
    (imgs : list Image) (c : Z) :
  plan_images decode_rgba argv (fs w) l1 = Some imgs →
  load_frame decode_rgba argv j w = (Exited c, w') →
  load_frames decode_rgba argv (l1 ++ j :: l2) w = (Exited c, w').
Proof.
  intros Hp%mapM_Some_1 Hj.
  induction Hp as [|i img l imgs Hi _ IH].
  - unfold load_frames. cbn [app mapM]. by rewrite (bind_Exited _ _ _ _ _ Hj).
  - unfold load_frames in *. cbn [app mapM].
    rewrite (bind_Returned _ _ _ _ _ (load_frame_decodes i w img Hi)).
    by rewrite (bind_Exited _ _ _ _ _ IH).
Qed.

Lemma load_frames_stops_Raised (l1 l2 : list Z) (j : Z) (w w' : World)
    (imgs : list Image) (e : Exn) :
  plan_images decode_rgba argv (fs w) l1 = Some imgs →
  load_frame decode_rgba argv j w = (Raised e, w') →
  load_frames decode_rgba argv (l1 ++ j :: l2) w = (Raised e, w').
Proof.
  intros Hp%mapM_Some_1 Hj.
  induction Hp as [|i img l imgs Hi _ IH].
  - unfold load_frames. cbn [app mapM]. by rewrite (bind_Raised _ _ _ _ _ Hj).
  - unfold load_frames in *. cbn [app mapM].
    rewrite (bind_Returned _ _ _ _ _ (load_frame_decodes i w img Hi)).
    by rewrite (bind_Raised _ _ _ _ _ IH).
Qed.

(** Either every frame of a list decodes, or there is a first one that
    does not. *)
Lemma plan_images_cases (m : gmap Path Entry) (l : list Z) :
  (∃ imgs, plan_images decode_rgba argv m l = Some imgs)
  ∨ (∃ l1 j l2 imgs, l = l1 ++ j :: l2
       ∧ plan_images decode_rgba argv m l1 = Some imgs
       ∧ frame_image decode_rgba argv m j = None).
Proof.
  induction l as [|i l IH].
  - left. by exists [].
  - destruct (frame_image decode_rgba argv m i) as [img|] eqn:Hi.
    + destruct IH as [(imgs & Hl)|(l1 & j & l2 & imgs & -> & Hl1 & Hj)].
      * left. exists (img :: imgs). unfold plan_images in *. cbn [mapM].
        rewrite Hi. cbn. by rewrite Hl.
      * right. exists (i :: l1), j, l2, (img :: imgs). split; [done|].
        split; [|done]. unfold plan_images in *. cbn [mapM].
        rewrite Hi. cbn. by rewrite Hl1.
    + right. by exists [], i, l, [].
Qed.

Lemma plan_images_length (m : gmap Path Entry) (l : list Z) (imgs : list Image) :
  plan_images decode_rgba argv m l = Some imgs → length imgs = length l.
Proof. intros Hp%mapM_Some_1. symmetry. by eapply Forall2_length. Qed.

Lemma plan_images_lookup (m : gmap Path Entry) (l : list Z) (imgs : list Image)
    (k : nat) (i : Z) :
  plan_images decode_rgba argv m l = Some imgs → l !! k = Some i →
  ∃ img, imgs !! k = Some img ∧ frame_image decode_rgba argv m i = Some img.
Proof.
  intros Hp%mapM_Some_1 Hk.
  destruct (Forall2_lookup_l _ _ _ _ _ Hp Hk) as (img & Himg & Hi).
  by exists img.
Qed.

Lemma plan_images_elem (m : gmap Path Entry) (l : list Z) (imgs : list Image) (i : Z) :
  plan_images decode_rgba argv m l = Some imgs → i ∈ l →
  is_Some (frame_image decode_rgba argv m i).
Proof.
  intros Hp [k Hk]%list_elem_of_lookup_1.
  destruct (plan_images_lookup m l imgs k i Hp Hk) as (img & _ & ->). by eexists.
Qed.

Lemma plan_images_slice (m : gmap Path Entry) (l : list Z) (imgs : list Image)
    (n k : nat) :
  plan_images decode_rgba argv m l = Some imgs →
  plan_images decode_rgba argv m (take n (drop k l)) = Some (take n (drop k imgs)).
Proof.
  intros Hp%mapM_Some_1. apply mapM_Some_2. by apply Forall2_take, Forall2_drop.
Qed.

Lemma plan_images_all (m : gmap Path Entry) (l : list Z) :
  (∀ i, i ∈ l → is_Some (frame_image decode_rgba argv m i)) →
  ∃ imgs, plan_images decode_rgba argv m l = Some imgs.
Proof.
  intros Hall. apply mapM_is_Some_2, Forall_forall.
  intros i Hi%list_elem_of_In. by apply Hall.
Qed.

Lemma plan_images_other_fs (m m' : gmap Path Entry) (l : list Z) :
  (∀ i, m' !! frame_path argv i = m !! frame_path argv i) →
  plan_images decode_rgba argv m' l = plan_images decode_rgba argv m l.
Proof.
  intros Hsame. apply mapM_ext. intros i. unfold frame_image. by rewrite Hsame.
Qed.
End Loader.

(** ** Animation encoder *)

Lemma path_parent_div (p : Path) (name : string) :
  path_parent (path_div p name) = p.
Proof.
  unfold path_parent, path_div. cbn. rewrite removelast_last. by destruct p.
Qed.

Section Encoder.
Variable gif_writer : bool → Image → list Image → list Z → Z → WriteResult.

Lemma save_gif_empty (durs : list Z) (path : Path) (w : World) :
  save_gif gif_writer [] durs path w = (Raised ValueError, w).
Proof. reflexivity. Qed.

Lemma try_save_ext (m m' : gmap Path Entry) (path : Path) (first : Image)
    (rest : list Image) (durs : list Z) (lp : Z) :
  m' !! path = m !! path → m' !! path_parent path = m !! path_parent path →
  try_save gif_writer m' path first rest durs lp
  = try_save gif_writer m path first rest durs lp.
Proof. intros H1 H2. unfold try_save. by rewrite H1, H2. Qed.

Lemma save_gif_saved (images : list Image) (durs : list Z) (path : Path)
    (w : World) (o : Image) (rest : list Image) (data : list byte) :
  normalize images = Ok (o :: rest) →
  try_save gif_writer (fs w) path o rest durs 0 = SaveOk data →
  save_gif gif_writer images durs path w
  = (Returned (),
     mkWorld (<[path := Regular data]> (fs w))
       (stdout w ++
          [summary_line path (width o) (height o) (S (length rest)) (length data)])
       (saves w ++ [mkSaveCall path o rest durs 0])).
Proof.
  intros Hn Hs. unfold save_gif.
  rewrite (bind_Returned _ _ _ _ _ (lift_Ok _ _ w Hn)).
  assert (Hfirst : py_index (o :: rest) 0 = Ok o) by (by apply py_index_in_range).
  rewrite (bind_Returned _ _ _ _ _ (lift_Ok _ _ w Hfirst)).
  unfold Image_save, path_stat_size, mbind at 1 2, M_bind.
  change (drop 1 (o :: rest)) with rest. cbv zeta.
  rewrite Hs. cbn [fs]. rewrite lookup_insert_eq.
  rewrite (bind_Returned _ _ _ _ _ (lift_Ok _ _ _ Hfirst)).
  reflexivity.
Qed.

Lemma save_gif_failed (images : list Image) (durs : list Z) (path : Path)
    (w : World) (o : Image) (rest : list Image) (e : Exn) (after : option Entry) :
  normalize images = Ok (o :: rest) →
  try_save gif_writer (fs w) path o rest durs 0 = SaveErr e after →
  save_gif gif_writer images durs path w
  = (Raised e,
     mkWorld (partial_alter (λ _, after) path (fs w)) (stdout w)
             (saves w ++ [mkSaveCall path o rest durs 0])).
Proof.
  intros Hn Hs. unfold save_gif.
  rewrite (bind_Returned _ _ _ _ _ (lift_Ok _ _ w Hn)).
  assert (Hfirst : py_index (o :: rest) 0 = Ok o) by (by apply py_index_in_range).
  rewrite (bind_Returned _ _ _ _ _ (lift_Ok _ _ w Hfirst)).
  unfold Image_save, mbind, M_bind.
  change (drop 1 (o :: rest)) with rest. cbv zeta. by rewrite Hs.
Qed.
End Encoder.

(** ** Pipeline driver *)

Lemma durations_value :
  durations = Ok [833; 500; 666; 1000; 833; 400; 400; 1166; 666;
                  500; 833; 666; 1000; 400; 400; 666; 666; 1166]%Z.
Proof. reflexivity. Qed.

Lemma worktree_durations_value :
  worktree_durations = Ok [666; 500; 833; 666; 1000]%Z.
Proof. reflexivity. Qed.

Lemma all_indices_value :
  all_indices = [1; 2; 3; 4; 5; 6; 7; 8; 9; 10; 11; 12; 13; 14; 15; 16; 17; 18]%Z.
Proof. reflexivity. Qed.

Lemma WORKTREE_FRAMES_value : WORKTREE_FRAMES = [9; 10; 11; 12; 13]%Z.
Proof. reflexivity. Qed.

Lemma WORKTREE_FRAMES_required : WORKTREE_FRAMES ⊆ all_indices.
Proof.
  intros i Hi. unfold WORKTREE_FRAMES, all_indices, range in *.
  apply elem_of_seqZ in Hi. apply elem_of_seqZ. cbn. lia.
Qed.

Lemma frame_path_not_output (argv : list Path) (i : Z) (name : string) :
  name = "demo.gif" ∨ name = "worktree.gif" →
  path_div (out_dir argv) name ≠ frame_path argv i.
Proof.
  intros Hname Heq. unfold frame_path, path_div in Heq.
  injection Heq as _ Htail. apply app_inj_tail in Htail as [_ Hn].
  destruct Hname as [-> | ->]; discriminate Hn.
Qed.

Lemma output_paths_differ (argv : list Path) : demo_path argv ≠ worktree_path argv.
Proof.
  unfold demo_path, worktree_path, path_div. intros Heq.
  injection Heq as Htail. apply app_inj_tail in Htail as [_ Hn].
  discriminate Hn.
Qed.

Lemma out_dir_not_output (argv : list Path) (name : string) :
  path_div (out_dir argv) name ≠ out_dir argv.
Proof.
  unfold path_div. destruct (out_dir argv) as [r t]. cbn. intros Heq.
  injection Heq as Ht. apply (f_equal length) in Ht.
  rewrite length_app in Ht. cbn in Ht. lia.
Qed.

(** In an increasing run of integers, what precedes an element is what is
    smaller than it. *)
Lemma seqZ_split_before (a : Z) (n : nat) (l1 l2 : list Z) (j k : Z) :
  seqZ a (Z.of_nat n) = l1 ++ j :: l2 →
  k ∈ seqZ a (Z.of_nat n) → (k < j)%Z → k ∈ l1.
Proof.
  intros Hsplit Hk Hlt.
  assert (Hj : seqZ a (Z.of_nat n) !! length l1 = Some j).
  { rewrite Hsplit. by apply list_lookup_middle. }
  apply lookup_seqZ in Hj as [-> _].
  apply list_elem_of_lookup_1 in Hk as [p Hp].
  pose proof Hp as [-> _]%lookup_seqZ.
  rewrite Hsplit, lookup_app_l in Hp by lia.
  by eapply list_elem_of_lookup_2.
Qed.

Lemma seqZ_split_smaller (a : Z) (n : nat) (l1 l2 : list Z) (j k : Z) :
  seqZ a (Z.of_nat n) = l1 ++ j :: l2 →
  k ∈ l1 → k ∈ seqZ a (Z.of_nat n) ∧ (k < j)%Z.
Proof.
  intros Hsplit Hk.
  assert (Hj : seqZ a (Z.of_nat n) !! length l1 = Some j).
  { rewrite Hsplit. by apply list_lookup_middle. }
  apply lookup_seqZ in Hj as [-> _].
  apply list_elem_of_lookup_1 in Hk as [p Hp].
  pose proof (lookup_lt_Some _ _ _ Hp) as Hlt.
  assert (Hp' : seqZ a (Z.of_nat n) !! p = Some k).
  { rewrite Hsplit. by apply lookup_app_l_Some. }
  split; [by eapply list_elem_of_lookup_2|].
  apply lookup_seqZ in Hp' as [-> _]. lia.
Qed.

Section Driver.
Variable decode_rgba : list byte → Res Decoded.
Variable gif_writer : bool → Image → list Image → list Z → Z → WriteResult.
Variable argv : list Path.

Local Abbreviation DS :=
  [833; 500; 666; 1000; 833; 400; 400; 1166; 666;
   500; 833; 666; 1000; 400; 400; 666; 666; 1166]%Z.
Local Abbreviation WDS := [666; 500; 833; 666; 1000]%Z.
Local Abbreviation run := (main decode_rgba gif_writer argv).
Local Abbreviation images_of := (plan_images decode_rgba argv).
Local Abbreviation saving := (try_save gif_writer).

(** The module body up to the first load. *)
Lemma main_after_header (w : World) :
  run w
  = (all_images ← load_frames decode_rgba argv all_indices;
     save_gif gif_writer all_images DS (demo_path argv);;
     wt_images ← load_frames decode_rgba argv WORKTREE_FRAMES;
     save_gif gif_writer wt_images WDS (worktree_path argv))
    (mkWorld (fs w) (stdout w ++ ["Speed: 3x"]) (saves w)).
Proof.
  unfold main.
  rewrite (bind_Returned _ _ _ _ _ (lift_Ok _ _ w durations_value)).
  rewrite (bind_Returned _ _ _ _ _ (lift_Ok _ _ w worktree_durations_value)).
  reflexivity.
Qed.

Lemma main_missing (w : World) (l1 l2 : list Z) (j : Z) (imgs : list Image) :
  all_indices = l1 ++ j :: l2 →
  images_of (fs w) l1 = Some imgs →
  fs w !! frame_path argv j = None →
  run w
  = (Exited 1,
     mkWorld (fs w)
       (stdout w ++ ["Speed: 3x"; "Missing: " +:+ path_str (frame_path argv j)])
       (saves w)).
Proof.
  intros Hsplit Hpre Hj. rewrite main_after_header, Hsplit.
  erewrite bind_Exited;
    [|eapply load_frames_stops_Exited; [exact Hpre|by apply load_frame_missing]].
  cbn [fs stdout saves]. by rewrite <- app_assoc.
Qed.

Lemma main_unreadable (w : World) (l1 l2 : list Z) (j : Z) (imgs : list Image) :
  all_indices = l1 ++ j :: l2 →
  images_of (fs w) l1 = Some imgs →
  is_Some (fs w !! frame_path argv j) →
  frame_image decode_rgba argv (fs w) j = None →
  ∃ e, run w
       = (Raised e, mkWorld (fs w) (stdout w ++ ["Speed: 3x"]) (saves w)).
Proof.
  intros Hsplit Hpre Hsome Hj. rewrite main_after_header, Hsplit.
  set (w1 := mkWorld (fs w) (stdout w ++ ["Speed: 3x"]) (saves w)).
  destruct (load_frame_unreadable decode_rgba argv j w1 Hsome Hj) as [e He].
  exists e. erewrite bind_Raised; [done|].
  eapply load_frames_stops_Raised; [exact Hpre|exact He].
Qed.

Lemma main_first_save_fails (w : World) (imgs1 : list Image) (o1 : Image)
    (rest1 : list Image) (e : Exn) (after : option Entry) :
  images_of (fs w) all_indices = Some imgs1 →
  normalize imgs1 = Ok (o1 :: rest1) →
  saving (fs w) (demo_path argv) o1 rest1 DS 0 = SaveErr e after →
  run w
  = (Raised e,
     mkWorld (partial_alter (λ _, after) (demo_path argv) (fs w))
       (stdout w ++ ["Speed: 3x"])
       (saves w ++ [mkSaveCall (demo_path argv) o1 rest1 DS 0])).
Proof.
  intros Hp Hn Hs. rewrite main_after_header.
  set (w1 := mkWorld (fs w) (stdout w ++ ["Speed: 3x"]) (saves w)).
  rewrite (bind_Returned _ _ _ _ _ (load_frames_decodes decode_rgba argv _ w1 _ Hp)).
  by rewrite (bind_Raised _ _ _ _ _
                (save_gif_failed gif_writer imgs1 DS _ w1 o1 rest1 e after Hn Hs)).
Qed.

(** The subrange plan reads frames 9 to 13 of the full plan. *)
Lemma worktree_images (m : gmap Path Entry) (imgs1 : list Image) :
  images_of m all_indices = Some imgs1 →
  images_of m WORKTREE_FRAMES = Some (take 5 (drop 8 imgs1)).
Proof.
  intros Hp. change WORKTREE_FRAMES with (take 5 (drop 8 all_indices)).
  by apply plan_images_slice.
Qed.

(** The world after the first plan, and what the second plan finds in it. *)
Lemma main_after_first_save (w : World) (imgs1 : list Image) (o1 : Image)
    (rest1 : list Image) (d1 : list byte) :
  images_of (fs w) all_indices = Some imgs1 →
  normalize imgs1 = Ok (o1 :: rest1) →
  saving (fs w) (demo_path argv) o1 rest1 DS 0 = SaveOk d1 →
  let w2 := mkWorld (<[demo_path argv := Regular d1]> (fs w))
              (stdout w ++
                 ["Speed: 3x";
                  summary_line (demo_path argv) (width o1) (height o1)
                    (S (length rest1)) (length d1)])
              (saves w ++ [mkSaveCall (demo_path argv) o1 rest1 DS 0]) in
  run w = save_gif gif_writer (take 5 (drop 8 imgs1)) WDS (worktree_path argv) w2
  ∧ ∀ o2 rest2,
      saving (fs w2) (worktree_path argv) o2 rest2 WDS 0
      = saving (fs w) (worktree_path argv) o2 rest2 WDS 0.
Proof.
  intros Hp Hn Hs w2. split.
  - rewrite main_after_header.
    set (w1 := mkWorld (fs w) (stdout w ++ ["Speed: 3x"]) (saves w)).
    rewrite (bind_Returned _ _ _ _ _ (load_frames_decodes decode_rgba argv _ w1 _ Hp)).
    rewrite (bind_Returned _ _ _ (mkWorld (fs w2) (stdout w2) (saves w2)) ());
      [|rewrite (save_gif_saved gif_writer imgs1 DS _ w1 o1 rest1 d1 Hn Hs);
        unfold w2, w1; cbn [fs stdout saves]; by rewrite <- app_assoc].
    assert (Hp2 : images_of (fs w2) WORKTREE_FRAMES = Some (take 5 (drop 8 imgs1))).
    { rewrite (plan_images_other_fs decode_rgba argv (fs w)).
      - by apply worktree_images.
      - intros i. unfold w2. cbn [fs].
        apply lookup_insert_ne, frame_path_not_output. by left. }
    by rewrite (bind_Returned _ _ _ _ _
                  (load_frames_decodes decode_rgba argv _ _ _ Hp2)).
  - intros o2 rest2. apply try_save_ext; unfold w2; cbn [fs].
    + apply lookup_insert_ne, output_paths_differ.
    + unfold worktree_path. rewrite path_parent_div.
      apply lookup_insert_ne, out_dir_not_output.
Qed.

Lemma main_second_save_fails (w : World) (imgs1 : list Image) (o1 : Image)
    (rest1 : list Image) (d1 : list byte) (o2 : Image) (rest2 : list Image)
    (e : Exn) (after : option Entry) :
  images_of (fs w) all_indices = Some imgs1 →
  normalize imgs1 = Ok (o1 :: rest1) →
  saving (fs w) (demo_path argv) o1 rest1 DS 0 = SaveOk d1 →
  normalize (take 5 (drop 8 imgs1)) = Ok (o2 :: rest2) →
  saving (fs w) (worktree_path argv) o2 rest2 WDS 0 = SaveErr e after →
  run w
  = (Raised e,
     mkWorld (partial_alter (λ _, after) (worktree_path argv)
                (<[demo_path argv := Regular d1]> (fs w)))
       (stdout w ++
          ["Speed: 3x";
           summary_line (demo_path argv) (width o1) (height o1)
             (S (length rest1)) (length d1)])
       (saves w ++ [mkSaveCall (demo_path argv) o1 rest1 DS 0;
                    mkSaveCall (worktree_path argv) o2 rest2 WDS 0])).
Proof.
  intros Hp Hn1 Hs1 Hn2 Hs2.
  destruct (main_after_first_save w imgs1 o1 rest1 d1 Hp Hn1 Hs1) as [-> Hsame].
  rewrite <- Hsame in Hs2.
  rewrite (save_gif_failed gif_writer _ WDS _ _ o2 rest2 e after Hn2 Hs2).
  cbn [fs stdout saves]. by rewrite <- app_assoc.
Qed.

Lemma main_returns (w : World) (imgs1 : list Image) (o1 : Image)
    (rest1 : list Image) (d1 : list byte) (o2 : Image) (rest2 : list Image)
    (d2 : list byte) :
  images_of (fs w) all_indices = Some imgs1 →
  normalize imgs1 = Ok (o1 :: rest1) →
  saving (fs w) (demo_path argv) o1 rest1 DS 0 = SaveOk d1 →
  normalize (take 5 (drop 8 imgs1)) = Ok (o2 :: rest2) →
  saving (fs w) (worktree_path argv) o2 rest2 WDS 0 = SaveOk d2 →
  run w
  = (Returned (),
     mkWorld (<[worktree_path argv := Regular d2]>
                (<[demo_path argv := Regular d1]> (fs w)))
       (stdout w ++
          ["Speed: 3x";
           summary_line (demo_path argv) (width o1) (height o1)
             (S (length rest1)) (length d1);
           summary_line (worktree_path argv) (width o2) (height o2)
             (S (length rest2)) (length d2)])
       (saves w ++ [mkSaveCall (demo_path argv) o1 rest1 DS 0;
                    mkSaveCall (worktree_path argv) o2 rest2 WDS 0])).
Proof.
  intros Hp Hn1 Hs1 Hn2 Hs2.
  destruct (main_after_first_save w imgs1 o1 rest1 d1 Hp Hn1 Hs1) as [-> Hsame].
  rewrite <- Hsame in Hs2.
  rewrite (save_gif_saved gif_writer _ WDS _ _ o2 rest2 d2 Hn2 Hs2).
  cbn [fs stdout saves]. by rewrite <- !app_assoc.
Qed.

Lemma normalize_nonempty (imgs : list Image) :
  imgs ≠ [] → ∃ o rest, normalize imgs = Ok (o :: rest).
Proof.
  intros Hne. destruct (normalize_fmap imgs Hne) as (mw & mh & _ & _ & ->).
  destruct imgs as [|img imgs]; [done|]. by eexists _, _.
Qed.

(** Every way a run can go. *)
Lemma main_cases (w : World) :
  (∃ l1 j l2 imgs,
     all_indices = l1 ++ j :: l2 ∧ images_of (fs w) l1 = Some imgs
     ∧ frame_image decode_rgba argv (fs w) j = None
     ∧ ((fs w !! frame_path argv j = None
         ∧ run w
           = (Exited 1,
              mkWorld (fs w)
                (stdout w ++
                   ["Speed: 3x"; "Missing: " +:+ path_str (frame_path argv j)])
                (saves w)))
        ∨ (is_Some (fs w !! frame_path argv j)
           ∧ ∃ e, run w
                  = (Raised e,
                     mkWorld (fs w) (stdout w ++ ["Speed: 3x"]) (saves w)))))
  ∨ (∃ imgs1 o1 rest1,
       images_of (fs w) all_indices = Some imgs1
       ∧ normalize imgs1 = Ok (o1 :: rest1)
       ∧ ((∃ e after,
             saving (fs w) (demo_path argv) o1 rest1 DS 0 = SaveErr e after
             ∧ run w
               = (Raised e,
                  mkWorld (partial_alter (λ _, after) (demo_path argv) (fs w))
                    (stdout w ++ ["Speed: 3x"])
                    (saves w ++ [mkSaveCall (demo_path argv) o1 rest1 DS 0])))
          ∨ (∃ d1 o2 rest2,
               saving (fs w) (demo_path argv) o1 rest1 DS 0 = SaveOk d1
               ∧ normalize (take 5 (drop 8 imgs1)) = Ok (o2 :: rest2)
               ∧ ((∃ e after,
                     saving (fs w) (worktree_path argv) o2 rest2 WDS 0
                     = SaveErr e after
                     ∧ run w
                       = (Raised e,
                          mkWorld
                            (partial_alter (λ _, after) (worktree_path argv)
                               (<[demo_path argv := Regular d1]> (fs w)))
                            (stdout w ++
                               ["Speed: 3x";
                                summary_line (demo_path argv) (width o1) (height o1)
                                  (S (length rest1)) (length d1)])
                            (saves w ++
                               [mkSaveCall (demo_path argv) o1 rest1 DS 0;
                                mkSaveCall (worktree_path argv) o2 rest2 WDS 0])))
                  ∨ (∃ d2,
                       saving (fs w) (worktree_path argv) o2 rest2 WDS 0
                       = SaveOk d2
                       ∧ run w
                         = (Returned (),
                            mkWorld
                              (<[worktree_path argv := Regular d2]>
                                 (<[demo_path argv := Regular d1]> (fs w)))
                              (stdout w ++
                                 ["Speed: 3x";
                                  summary_line (demo_path argv) (width o1)
                                    (height o1) (S (length rest1)) (length d1);
                                  summary_line (worktree_path argv) (width o2)
                                    (height o2) (S (length rest2)) (length d2)])
                              (saves w ++
                                 [mkSaveCall (demo_path argv) o1 rest1 DS 0;
                                  mkSaveCall (worktree_path argv) o2 rest2 WDS 0]))))))).
Proof.
  destruct (plan_images_cases decode_rgba argv (fs w) all_indices)
    as [(imgs1 & Hp)|(l1 & j & l2 & imgs & Hsplit & Hpre & Hj)].
  - right.
    destruct (normalize_nonempty imgs1) as (o1 & rest1 & Hn1).
    { intros ->. by apply plan_images_length in Hp. }
    exists imgs1, o1, rest1. split; [done|]. split; [done|].
    destruct (saving (fs w) (demo_path argv) o1 rest1 DS 0) as [d1|e after] eqn:Hs1.
    + right.
      destruct (normalize_nonempty (take 5 (drop 8 imgs1))) as (o2 & rest2 & Hn2).
      { apply plan_images_length in Hp.
        destruct imgs1 as [|? [|? [|? [|? [|? [|? [|? [|? [|? ?]]]]]]]]]; done. }
      exists d1, o2, rest2. split; [done|]. split; [done|].
      destruct (saving (fs w) (worktree_path argv) o2 rest2 WDS 0)
        as [d2|e after] eqn:Hs2.
      * right. exists d2. split; [done|]. by apply (main_returns w imgs1).
      * left. exists e, after. split; [done|].
        by apply (main_second_save_fails w imgs1).
    + left. exists e, after. split; [done|].
      by apply (main_first_save_fails w imgs1).
  - left. exists l1, j, l2, imgs. split; [done|]. split; [done|]. split; [done|].
    destruct (fs w !! frame_path argv j) as [en|] eqn:Hen.
    + right. split; [by eexists|].
      eapply main_unreadable; [done|done| |done]. by rewrite Hen.
    + left. split; [done|]. by eapply main_missing.
Qed.
End Driver.

(** C5, as the code has it: when a required frame file is absent and every
    required frame before it decodes, the run prints [Missing: <path>] for
    that path (after the speed line), leaves through [sys.exit(1)] and has
    neither called [Image.save] nor changed a file; when every required
    frame decodes and both saves succeed, the run returns and the exit
    status is 0.  The subrange frames are among the required ones. *)
Theorem missing_frame_aborts (decode_rgba : list byte → Res Decoded)
    (gif_writer : bool → Image → list Image → list Z → Z → WriteResult)
    (argv : list Path) (w : World) :
  WORKTREE_FRAMES ⊆ all_indices
  ∧ (∀ j, j ∈ all_indices → fs w !! frame_path argv j = None →
       (∀ k, k ∈ all_indices → (k < j)%Z →
          is_Some (frame_image decode_rgba argv (fs w) k)) →
       main decode_rgba gif_writer argv w
       = (Exited 1,
          mkWorld (fs w)
            (stdout w ++
               ["Speed: 3x"; "Missing: " +:+ path_str (frame_path argv j)])
            (saves w))
       ∧ exit_status (main decode_rgba gif_writer argv w).1 = 1%Z)
  ∧ (∀ ds wds imgs1 o1 rest1 d1 imgs2 o2 rest2 d2,
       durations = Ok ds → worktree_durations = Ok wds →
       plan_images decode_rgba argv (fs w) all_indices = Some imgs1 →
       normalize imgs1 = Ok (o1 :: rest1) →
       try_save gif_writer (fs w) (demo_path argv) o1 rest1 ds 0 = SaveOk d1 →
       plan_images decode_rgba argv (fs w) WORKTREE_FRAMES = Some imgs2 →
       normalize imgs2 = Ok (o2 :: rest2) →
       try_save gif_writer (fs w) (worktree_path argv) o2 rest2 wds 0 = SaveOk d2 →
       ∃ w', main decode_rgba gif_writer argv w = (Returned (), w')
         ∧ exit_status (main decode_rgba gif_writer argv w).1 = 0%Z).
Proof.
  split; [apply WORKTREE_FRAMES_required|]. split.
  - intros j Hj Habs Hbefore.
    destruct (list_elem_of_split _ _ Hj) as (l1 & l2 & Hsplit).
    destruct (plan_images_all decode_rgba argv (fs w) l1) as [imgs Himgs].
    { intros k Hk.
      change all_indices with (seqZ 1 (Z.of_nat 18)) in Hsplit.
      destruct (seqZ_split_smaller _ _ _ _ _ _ Hsplit Hk) as [Hin Hlt].
      by apply Hbefore. }
    rewrite (main_missing decode_rgba gif_writer argv w l1 l2 j imgs Hsplit Himgs Habs).
    done.
  - intros ds wds imgs1 o1 rest1 d1 imgs2 o2 rest2 d2 Hds Hwds Hp1 Hn1 Hs1 Hp2 Hn2 Hs2.
    rewrite durations_value in Hds. injection Hds as <-.
    rewrite worktree_durations_value in Hwds. injection Hwds as <-.
    rewrite (worktree_images decode_rgba argv _ _ Hp1) in Hp2. injection Hp2 as <-.
    rewrite (main_returns decode_rgba gif_writer argv w imgs1 o1 rest1 d1 o2 rest2 d2)
      by done.
    by eexists.
Qed.

(** C5 as stated fails twice.  With all eighteen frames present and
    decodable but no output directory the run ends in an uncaught
    [FileNotFoundError], exit status 1, not 0.  And with [frame-7.png]
    absent but [frame-1.png] present and unreadable, the run ends in the
    reader's exception and never prints a [Missing:] line. *)
Lemma present_frames_status_one :
  (∀ i, i ∈ all_indices →
        is_Some (frame_image sample_decode [] (fs sample_world_nodir) i))
  ∧ (main sample_decode sample_writer [] sample_world_nodir).1
    = Raised FileNotFoundError
  ∧ exit_status (main sample_decode sample_writer [] sample_world_nodir).1 = 1%Z
  ∧ fs sample_world_bad !! frame_path [] 7 = None
  ∧ is_Some (fs sample_world_bad !! frame_path [] 1)
  ∧ (main sample_decode sample_writer [] sample_world_bad).1
    = Raised UnidentifiedImageError
  ∧ stdout (main sample_decode sample_writer [] sample_world_bad).2
    = ["Speed: 3x"].
Proof.
  split.
  { intros i Hi. rewrite all_indices_value in Hi.
    repeat (apply elem_of_cons in Hi as [->|Hi]);
      try (vm_compute; eexists; reflexivity).
    inversion Hi. }
  split; [vm_compute; reflexivity|].
  split; [vm_compute; reflexivity|].
  split; [vm_compute; reflexivity|].
  split; [vm_compute; eexists; reflexivity|].
  split; vm_compute; reflexivity.
Qed.



(** C10, as the code has it: on the empty sequence [normalize] fails with
    the [ValueError] of [max] over nothing, and [save_gif] fails with that
    same error, raised inside its call to [normalize] with the world
    untouched; the access to the first normalised frame, which would fail
    on an empty list, is never reached. *)
Theorem empty_sequence_fails_in_normalize :
  normalize [] = Raise ValueError
  ∧ (∀ gif_writer durs path w,
       save_gif gif_writer [] durs path w = (Raised ValueError, w))
  ∧ py_index ([] : list Image) 0 = Raise IndexError.
Proof.
  split; [reflexivity|]. split; [intros; apply save_gif_empty|]. reflexivity.
Qed.

(** C10 as stated fails: [save_gif] of the empty sequence does not end in
    the [IndexError] of a first-frame access; it ends in [ValueError]. *)
Lemma save_gif_empty_not_IndexError :
  (save_gif sample_writer [] [] (mkPath "" ["out.gif"]) (mkWorld ∅ [] [])).1
  = Raised ValueError
  ∧ (save_gif sample_writer [] [] (mkPath "" ["out.gif"]) (mkWorld ∅ [] [])).1
    ≠ Raised IndexError.
Proof. split; [reflexivity|discriminate]. Qed.
(** ** The theorems at sample inputs *)

Example normalize_sample :
  normalize [img_small; img_big]
  = Ok [ mkImage 2 2 (RasterRGB [[(1, 2, 3); (30, 30, 30)];
                                  [(30, 30, 30); (30, 30, 30)]]%Z);
         mkImage 2 2 (RasterRGB [[(10, 20, 30); (40, 50, 60)];
                                  [(70, 80, 90); (100, 110, 120)]]%Z) ].
Proof. reflexivity. Qed.

Example main_sample_gap :
  (main sample_decode sample_writer [] sample_world_gap).1 = Exited 1
  ∧ stdout (main sample_decode sample_writer [] sample_world_gap).2
    = ["Speed: 3x"; "Missing: /tmp/recomposable-frames/frame-7.png"]
  ∧ saves (main sample_decode sample_writer [] sample_world_gap).2 = [].
Proof. repeat split; vm_compute; reflexivity. Qed.

Example main_sample :
  (main sample_decode sample_writer [] sample_world).1 = Returned ()
  ∧ stdout (main sample_decode sample_writer [] sample_world).2
    = ["Speed: 3x"; "  screenshots/demo.gif (18x1, 18 frames, 1KB)";
       "  screenshots/worktree.gif (13x1, 5 frames, 1KB)"]
  ∧ length (saves (main sample_decode sample_writer [] sample_world).2) = 2.
Proof. repeat split; vm_compute; reflexivity. Qed.

Lemma sample_images_wf : Forall wf_image [img_small; img_big].
Proof. repeat constructor. Defined.

Lemma normalize_same_length_max_size_witness :
  ∃ out mw mh, normalize [img_small; img_big] = Ok out
    ∧ is_max mw (width <$> [img_small; img_big])
    ∧ is_max mh (height <$> [img_small; img_big])
    ∧ length out = length [img_small; img_big]
    ∧ ∀ i img, [img_small; img_big] !! i = Some img →
        ∃ o, out !! i = Some o
          ∧ width o = mw ∧ height o = mh ∧ wf_image o ∧ mode o = RGB
          ∧ (∀ x y, x < width img → y < height img →
               rgb_at o x y = rgb_at img x y)
          ∧ (width img = mw → height img = mh →
               o = convert RGB img ∧ ∀ x y, rgb_at o x y = rgb_at img x y).
Proof.
  apply (normalize_same_length_max_size [img_small; img_big]).
  - discriminate.
  - exact sample_images_wf.
Defined.

Lemma normalize_pads_smaller_witness :
  ∃ out o mw mh, normalize [img_small; img_big] = Ok out ∧ out !! 0 = Some o
    ∧ is_max mw (width <$> [img_small; img_big])
    ∧ is_max mh (height <$> [img_small; img_big])
    ∧ (width img_small < mw ∨ height img_small < mh →
       ∀ x y,
         (x < width img_small → y < height img_small →
            is_Some (rgb_at img_small x y)
            ∧ rgb_at o x y = rgb_at img_small x y)
         ∧ (x < mw → y < mh → ¬ (x < width img_small ∧ y < height img_small) →
            rgb_at o x y = Some (30, 30, 30)%Z)).
Proof.
  apply (normalize_pads_smaller [img_small; img_big] 0 img_small).
  - exact sample_images_wf.
  - reflexivity.
Defined.

Lemma paste_ignores_alpha_witness :
  normalize_one 2 2 img_small
  = paste (Image_new_RGB (2, 2) (30, 30, 30)%Z) img_small (0, 0)
  ∧ mode (normalize_one 2 2 img_small) = RGB
  ∧ alpha_at (normalize_one 2 2 img_small) 0 0 = None
  ∧ rgb_at (normalize_one 2 2 img_small) 0 0 = Some (1, 2, 3)%Z.
Proof.
  apply (paste_ignores_alpha 2 2 img_small 0 0 (1, 2, 3)%Z 0%Z).
  - exact I.
  - simpl. lia.
  - simpl. lia.
  - left. simpl. lia.
  - reflexivity.
  - reflexivity.
Defined.

Lemma normalize_idempotent_witness :
  ∃ out, normalize [img_small; img_big] = Ok out ∧ normalize out = Ok out
    ∧ ((∀ img, img ∈ [img_small; img_big] →
          is_max (width img) (width <$> [img_small; img_big])
          ∧ is_max (height img) (height <$> [img_small; img_big])) →
       ∀ i img, [img_small; img_big] !! i = Some img →
         ∃ o, out !! i = Some o
           ∧ width o = width img ∧ height o = height img
           ∧ ∀ x y, rgb_at o x y = rgb_at img x y).
Proof.
  apply (normalize_idempotent [img_small; img_big]). discriminate.
Defined.

Lemma sample_index_cases (P : Z → Prop) :
  P 1%Z → P 2%Z → P 3%Z → P 4%Z → P 5%Z → P 6%Z → P 7%Z → P 8%Z → P 9%Z →
  P 10%Z → P 11%Z → P 12%Z → P 13%Z → P 14%Z → P 15%Z → P 16%Z → P 17%Z →
  P 18%Z → ∀ i, i ∈ all_indices → P i.
Proof.
  intros. rewrite all_indices_value in *.
  repeat match goal with H : _ ∈ _ :: _ |- _ =>
    apply elem_of_cons in H as [->|H] end; try done.
  match goal with H : _ ∈ [] |- _ => inversion H end.
Defined.

Lemma missing_frame_aborts_witness :
  (main sample_decode sample_writer [] sample_world_gap
   = (Exited 1,
      mkWorld (fs sample_world_gap)
        (stdout sample_world_gap ++
           ["Speed: 3x"; "Missing: " +:+ path_str (frame_path [] 7)])
        (saves sample_world_gap))
   ∧ exit_status (main sample_decode sample_writer [] sample_world_gap).1 = 1%Z)
  ∧ (∃ w', main sample_decode sample_writer [] sample_world = (Returned (), w')
       ∧ exit_status (main sample_decode sample_writer [] sample_world).1 = 0%Z).
Proof.
  split.
  - apply (proj1 (proj2 (missing_frame_aborts sample_decode sample_writer []
                           sample_world_gap)) 7%Z).
    + rewrite all_indices_value. do 6 right. left.
    + vm_compute. reflexivity.
    + apply (sample_index_cases
               (λ k, (k < 7)%Z →
                     is_Some (frame_image sample_decode [] (fs sample_world_gap) k)));
        intros Hlt; try lia; vm_compute; eexists; reflexivity.
  - apply (proj2 (proj2 (missing_frame_aborts sample_decode sample_writer []
                           sample_world))
             [833; 500; 666; 1000; 833; 400; 400; 1166; 666;
              500; 833; 666; 1000; 400; 400; 666; 666; 1166]%Z
             [666; 500; 833; 666; 1000]%Z
             sample_images sample_demo_first sample_demo_rest sample_demo_data
             sample_worktree_images sample_worktree_first sample_worktree_rest
             sample_worktree_data);
      vm_compute; reflexivity.
Defined.


(** * Further properties of the script *)

(** ** Duration tables *)

(** X1: raising the speed never lengthens a frame: for a table of
    non-negative entries and speeds [1 <= s <= s'], each duration derived at
    [s'] is at most the one derived at [s], and still at least 50. *)
Theorem derived_durations_monotone (s s' : Z) (base : list Z)
    (Hs : (1 ≤ s ≤ s')%Z) (Hbase : Forall (λ b, (0 ≤ b)%Z) base) :
  ∃ ds ds', derive_durations s base = Ok ds
    ∧ derive_durations s' base = Ok ds'
    ∧ Forall2 (λ d' d, (50 ≤ d' ≤ d)%Z) ds' ds.
Proof.
  eexists _, _.
  split; [apply derive_durations_fmap; lia|].
  split; [apply derive_durations_fmap; lia|].
  induction Hbase as [|b base Hb _ IH]; cbn; constructor; [|exact IH].
  assert (b `div` s' ≤ b `div` s)%Z by (apply Z.div_le_compat_l; lia).
  lia.
Qed.

Lemma derived_durations_monotone_witness :
  ∃ ds ds', derive_durations 3 base_durations = Ok ds
    ∧ derive_durations 4 base_durations = Ok ds'
    ∧ Forall2 (λ d' d, (50 ≤ d' ≤ d)%Z) ds' ds.
Proof.
  apply (derived_durations_monotone 3 4 base_durations).
  - lia.
  - unfold base_durations. repeat constructor; lia.
Defined.

(** X2: the 50 ms floor changes an entry exactly when the baseline is below
    [50 * s]: for [s >= 1] the derived duration is the plain quotient
    [b // s] iff [50 * s <= b], and it is 50 iff [b < 51 * s]. *)
Theorem floor_applies_below_fifty_speed (s : Z) (base : list Z) (i : nat) (b : Z)
    (Hs : (1 ≤ s)%Z) (Hb : base !! i = Some b) :
  ∃ ds d, derive_durations s base = Ok ds ∧ ds !! i = Some d
    ∧ (d = (b `div` s)%Z ↔ (50 * s ≤ b)%Z)
    ∧ (d = 50%Z ↔ (b < 51 * s)%Z).
Proof.
  eexists _, _. split; [apply derive_durations_fmap; lia|].
  split; [by rewrite list_lookup_fmap, Hb|].
  pose proof (Z.div_mod b s ltac:(lia)) as Hdm.
  pose proof (Z.mod_pos_bound b s ltac:(lia)) as Hr.
  split; split; intros H; nia.
Qed.

Lemma floor_applies_below_fifty_speed_witness :
  ∃ ds d, derive_durations 40 base_durations = Ok ds ∧ ds !! 5 = Some d
    ∧ (d = (1200 `div` 40)%Z ↔ (50 * 40 ≤ 1200)%Z)
    ∧ (d = 50%Z ↔ (1200 < 51 * 40)%Z).
Proof.
  apply (floor_applies_below_fifty_speed 40 base_durations 5 1200).
  - lia.
  - reflexivity.
Defined.

Lemma py_index_Ok_or_IndexError {A} (l : list A) (i : Z) :
  (∃ x, py_index l i = Ok x) ∨ py_index l i = Raise IndexError.
Proof.
  unfold py_index. cbv zeta.
  destruct (decide _); [|by right].
  destruct (l !! _); [left; by eexists|by right].
Qed.

Lemma py_index_beyond {A} (l : list A) (i : Z) :
  (Z.of_nat (length l) ≤ i)%Z → py_index l i = Raise IndexError.
Proof.
  intros Hi. unfold py_index. cbv zeta.
  rewrite (decide_False (P := (i < 0)%Z)) by lia.
  by rewrite decide_False by lia.
Qed.

(** X3: a frame index beyond the table makes the subrange lookup raise
    [IndexError], wherever in the index list it stands. *)
Theorem select_durations_out_of_range (durs frames : list Z)
    (Hbad : ∃ i, i ∈ frames ∧ (Z.of_nat (length durs) < i)%Z) :
  select_durations durs frames = Raise IndexError.
Proof.
  unfold select_durations.
  induction frames as [|a frames IH].
  - destruct Hbad as (i & Hi & _). inversion Hi.
  - cbn [mapM].
    destruct (decide (Z.of_nat (length durs) < a)%Z) as [Ha|Ha].
    + by rewrite py_index_beyond by lia.
    + destruct (py_index_Ok_or_IndexError durs (a - 1)) as [[x ->]| ->];
        [|done].
      cbn. rewrite IH; [done|].
      destruct Hbad as (i & Hi & Hlt). exists i. split; [|done].
      apply elem_of_cons in Hi as [->|Hi]; [lia|done].
Qed.

Lemma select_durations_out_of_range_witness :
  select_durations [833; 500]%Z [1; 3; 2]%Z = Raise IndexError.
Proof.
  apply select_durations_out_of_range.
  exists 3%Z. split; [right; left|simpl; lia].
Defined.

(** X4: frame index 0 does not fail: [durs[0 - 1]] is Python's index
    [-1], so the lookup silently yields the last entry of the table. *)
Theorem select_durations_zero_wraps (durs : list Z) (d : Z) :
  select_durations (durs ++ [d]) [0%Z] = Ok [d].
Proof.
  unfold select_durations. cbn [mapM].
  assert (py_index (durs ++ [d]) (0 - 1) = Ok d) as ->; [|done].
  unfold py_index. cbv zeta. rewrite length_app. cbn [length].
  rewrite (decide_True (P := (0 - 1 < 0)%Z)) by lia.
  rewrite decide_True by lia.
  replace (Z.to_nat (0 - 1 + Z.of_nat (length durs + 1))) with (length durs) by lia.
  by rewrite list_lookup_middle.
Qed.

(** ** Conversions and the normaliser *)

Lemma image_eta (im : Image) : mkImage (width im) (height im) (raster im) = im.
Proof. by destruct im. Qed.

Lemma convert_RGBA_then_RGB (im : Image) :
  mode im = RGB → convert RGB (convert RGBA im) = im.
Proof.
  unfold mode, convert. destruct im as [w h [rows|rows]]; [|done].
  intros _. cbn. f_equal. f_equal.
  rewrite <- list_fmap_compose. apply fmap_fixed. intros r _. cbn.
  rewrite <- list_fmap_compose. apply fmap_fixed. by intros [[? ?] ?] _.
Qed.

(** X5: frames stored without alpha and all of one size come through the
    loader's conversion to RGBA followed by the normaliser exactly as they
    were stored. *)
Theorem stored_rgb_frames_pass_unchanged (ims : list Image)
    (Hne : ims ≠ [])
    (Hrgb : ∀ im, im ∈ ims → mode im = RGB)
    (Hsize : ∀ im im', im ∈ ims → im' ∈ ims →
               width im = width im' ∧ height im = height im') :
  normalize (convert RGBA <$> ims) = Ok ims.
Proof.
  destruct (normalize_fmap (convert RGBA <$> ims)) as (mw & mh & Hmw & Hmh & ->).
  { by destruct ims. }
  f_equal. rewrite <- list_fmap_compose. apply fmap_fixed. intros im Him.
  unfold compose. destruct (convert_size RGBA im) as [Hw Hh].
  destruct Hmw as [(c & -> & (im1 & -> & H1)%list_elem_of_fmap)%list_elem_of_fmap _].
  destruct Hmh as [(c & -> & (im2 & -> & H2)%list_elem_of_fmap)%list_elem_of_fmap _].
  rewrite normalize_one_match.
  - by apply convert_RGBA_then_RGB, Hrgb.
  - rewrite Hw. destruct (convert_size RGBA im1) as [-> _].
    by apply (Hsize im im1).
  - rewrite Hh. destruct (convert_size RGBA im2) as [_ ->].
    by apply (Hsize im im2).
Qed.

Lemma stored_rgb_frames_pass_unchanged_witness :
  normalize (convert RGBA <$> [img_rgb; img_rgb]) = Ok [img_rgb; img_rgb].
Proof.
  apply stored_rgb_frames_pass_unchanged.
  - discriminate.
  - intros im Him. repeat (apply elem_of_cons in Him as [->|Him]);
      [reflexivity|reflexivity|inversion Him].
  - intros im im' Him Him'.
    repeat (apply elem_of_cons in Him as [->|Him]);
      repeat (apply elem_of_cons in Him' as [->|Him']);
      try (split; reflexivity); try inversion Him; inversion Him'.
Defined.

Lemma is_max_Permutation (m : nat) (l k : list nat) :
  l ≡ₚ k → is_max m l → is_max m k.
Proof.
  intros Hp [Hin Hle]. split.
  - by rewrite <- Hp.
  - intros x Hx. apply Hle. by rewrite Hp.
Qed.

(** X6: the canvas does not depend on the order of the frames: normalising
    a rearrangement of a non-empty sequence gives the same rearrangement of
    the normalised images. *)
Theorem normalize_permutation (xs ys : list Image)
    (Hne : xs ≠ []) (Hp : xs ≡ₚ ys) :
  ∃ ox oy, normalize xs = Ok ox ∧ normalize ys = Ok oy ∧ ox ≡ₚ oy
    ∧ ∀ img o, (∃ i, xs !! i = Some img ∧ ox !! i = Some o) →
               ∃ j, ys !! j = Some img ∧ oy !! j = Some o.
Proof.
  destruct (normalize_fmap xs Hne) as (mw & mh & Hmw & Hmh & Hx).
  assert (Hne' : ys ≠ []).
  { intros ->. by apply Permutation_nil_r in Hp. }
  destruct (normalize_fmap ys Hne') as (mw' & mh' & Hmw' & Hmh' & Hy).
  assert (mw' = mw) as ->.
  { eapply is_max_unique; [exact Hmw'|].
    eapply is_max_Permutation; [|exact Hmw]. by rewrite Hp. }
  assert (mh' = mh) as ->.
  { eapply is_max_unique; [exact Hmh'|].
    eapply is_max_Permutation; [|exact Hmh]. by rewrite Hp. }
  eexists _, _. split; [exact Hx|]. split; [exact Hy|].
  split; [by rewrite Hp|].
  intros img o (i & Hi & Ho). rewrite list_lookup_fmap, Hi in Ho.
  injection Ho as <-.
  assert (Hin : img ∈ ys) by (rewrite <- Hp; by eapply list_elem_of_lookup_2).
  apply list_elem_of_lookup_1 in Hin as [j Hj].
  exists j. split; [done|]. by rewrite list_lookup_fmap, Hj.
Qed.

Lemma normalize_permutation_witness :
  ∃ ox oy, normalize [img_small; img_big] = Ok ox
    ∧ normalize [img_big; img_small] = Ok oy ∧ ox ≡ₚ oy
    ∧ ∀ img o, (∃ i, [img_small; img_big] !! i = Some img ∧ ox !! i = Some o) →
               ∃ j, [img_big; img_small] !! j = Some img ∧ oy !! j = Some o.
Proof.
  apply (normalize_permutation [img_small; img_big] [img_big; img_small]).
  - discriminate.
  - apply perm_swap.
Defined.

(** ** Frame loader *)

Lemma string_length_app (s t : string) :
  String.length (s +:+ t) = String.length s + String.length t.
Proof. induction s as [|c s IH]; [done|]. simpl. f_equal. exact IH. Qed.

Lemma string_app_inj_r (s1 s2 t : string) : s1 +:+ t = s2 +:+ t → s1 = s2.
Proof.
  revert s2. induction s1 as [|c s1 IH]; intros [|c' s2] Heq.
  - done.
  - apply (f_equal String.length) in Heq.
    rewrite !string_length_app in Heq. cbn in Heq. lia.
  - apply (f_equal String.length) in Heq.
    rewrite !string_length_app in Heq. cbn in Heq. lia.
  - simpl in Heq. injection Heq as -> Heq. f_equal. by apply IH.
Qed.

(** X7: distinct frame indices name distinct files: the path of frame [i]
    determines [i]. *)
Theorem frame_path_inj (argv : list Path) (i j : Z) :
  frame_path argv i = frame_path argv j → i = j.
Proof.
  unfold frame_path, path_div. intros Heq.
  injection Heq as Htail. apply app_inj_tail in Htail as [_ Hn].
  apply (inj (String.app "frame-")) in Hn.
  apply string_app_inj_r in Hn. by apply (inj pretty) in Hn.
Qed.

Lemma frame_path_inj_witness : (7 : Z) = 7%Z.
Proof. apply (frame_path_inj [] 7 7). reflexivity. Defined.

(** X8: loading succeeds when every indexed path is a regular file the
    reader accepts: the world is left as it was and there is one image per
    index, in order, each the RGBA image the reader makes of that file. *)
Theorem load_frames_contract (decode_rgba : list byte → Res Decoded)
    (argv : list Path) (l : list Z) (w : World)
    (Hall : ∀ i, i ∈ l → ∃ data d, fs w !! frame_path argv i = Some (Regular data)
                                   ∧ decode_rgba data = Ok d) :
  ∃ imgs, load_frames decode_rgba argv l w = (Returned imgs, w)
    ∧ length imgs = length l
    ∧ ∀ k i, l !! k = Some i →
        ∃ data d, fs w !! frame_path argv i = Some (Regular data)
          ∧ decode_rgba data = Ok d
          ∧ imgs !! k = Some (rgba_image d)
          ∧ mode (rgba_image d) = RGBA
          ∧ width (rgba_image d) = d.1.1 ∧ height (rgba_image d) = d.1.2.
Proof.
  destruct (plan_images_all decode_rgba argv (fs w) l) as [imgs Hp].
  { intros i Hi. destruct (Hall i Hi) as (data & d & Hf & Hd).
    exists (rgba_image d). apply frame_image_Some. by exists data, d. }
  exists imgs. split; [by apply load_frames_decodes|].
  split; [by eapply plan_images_length|].
  intros k i Hk.
  destruct (plan_images_lookup _ _ _ _ _ _ _ Hp Hk) as (img & Himg & Hi).
  apply frame_image_Some in Hi as (data & d & Hf & Hd & ->).
  by exists data, d.
Qed.

Lemma load_frames_contract_witness :
  ∃ imgs, load_frames sample_decode [] [3; 1; 3]%Z sample_world
          = (Returned imgs, sample_world)
    ∧ length imgs = length [3; 1; 3]%Z
    ∧ ∀ k i, [3; 1; 3]%Z !! k = Some i →
        ∃ data d, fs sample_world !! frame_path [] i = Some (Regular data)
          ∧ sample_decode data = Ok d
          ∧ imgs !! k = Some (rgba_image d)
          ∧ mode (rgba_image d) = RGBA
          ∧ width (rgba_image d) = d.1.1 ∧ height (rgba_image d) = d.1.2.
Proof.
  apply (load_frames_contract sample_decode [] [3; 1; 3]%Z sample_world).
  intros i Hi.
  repeat (apply elem_of_cons in Hi as [->|Hi]);
    try (eexists _, _; split; vm_compute; reflexivity).
  inversion Hi.
Defined.

(** X9: whatever the index list and the directory, loading never writes a
    file and never calls [Image.save].  Either it returns the decoded
    images with the world untouched; or it stops at the first frame that
    does not decode: if that file is absent it prints the one [Missing:]
    line and exits with status 1, and if it is there it raises the
    reader's exception without printing anything. *)
Theorem load_frames_never_writes (decode_rgba : list byte → Res Decoded)
    (argv : list Path) (l : list Z) (w : World) :
  fs (load_frames decode_rgba argv l w).2 = fs w
  ∧ saves (load_frames decode_rgba argv l w).2 = saves w
  ∧ ((∃ imgs, plan_images decode_rgba argv (fs w) l = Some imgs
        ∧ load_frames decode_rgba argv l w = (Returned imgs, w))
     ∨ (∃ l1 j l2, l = l1 ++ j :: l2
          ∧ (∀ i, i ∈ l1 → is_Some (frame_image decode_rgba argv (fs w) i))
          ∧ ((fs w !! frame_path argv j = None
              ∧ load_frames decode_rgba argv l w
                = (Exited 1,
                   mkWorld (fs w)
                     (stdout w ++ ["Missing: " +:+ path_str (frame_path argv j)])
                     (saves w)))
             ∨ (is_Some (fs w !! frame_path argv j)
                ∧ frame_image decode_rgba argv (fs w) j = None
                ∧ ∃ e, load_frames decode_rgba argv l w = (Raised e, w))))).
Proof.
  destruct (plan_images_cases decode_rgba argv (fs w) l)
    as [(imgs & Hp)|(l1 & j & l2 & imgs & -> & Hpre & Hj)].
  - rewrite (load_frames_decodes _ _ _ _ _ Hp).
    split; [done|]. split; [done|]. left. by exists imgs.
  - assert (Hbefore : ∀ i, i ∈ l1 →
                      is_Some (frame_image decode_rgba argv (fs w) i)).
    { intros i Hi. by eapply plan_images_elem. }
    destruct (fs w !! frame_path argv j) as [en|] eqn:Hen.
    + destruct (load_frame_unreadable decode_rgba argv j w) as [e He];
        [by rewrite Hen|done|].
      rewrite (load_frames_stops_Raised _ _ _ l2 _ _ _ _ _ Hpre He).
      split; [done|]. split; [done|]. right. exists l1, j, l2.
      split; [done|]. split; [done|]. right.
      split; [by eexists|]. split; [done|]. by exists e.
    + rewrite (load_frames_stops_Exited _ _ _ l2 _ _ _ _ _ Hpre
                 (load_frame_missing decode_rgba argv j w Hen)).
      split; [done|]. split; [done|]. right. exists l1, j, l2.
      split; [done|]. split; [done|]. by left.
Qed.

(** ** Animation encoder and driver *)

Lemma normalize_length (imgs out : list Image) :
  normalize imgs = Ok out → length out = length imgs.
Proof.
  intros Hn. destruct imgs as [|img imgs]; [done|].
  destruct (normalize_fmap (img :: imgs)) as (mw & mh & _ & _ & Hout); [done|].
  rewrite Hn in Hout. injection Hout as Hout. subst out.
  exact (length_fmap (normalize_one mw mh) (img :: imgs)).
Qed.

Lemma is_max_subseteq (l k : list nat) (m n : nat) :
  l ⊆ k → is_max m l → is_max n k → m ≤ n.
Proof. intros Hsub [Hin _] [_ Hle]. by apply Hle, Hsub. Qed.

Lemma try_save_SaveOk (gif_writer : bool → Image → list Image → list Z → Z → WriteResult)
    (m : gmap Path Entry) (path : Path) (first : Image) (rest : list Image)
    (durs : list Z) (lp : Z) (data : list byte) :
  try_save gif_writer m path first rest durs lp = SaveOk data ↔
  (∀ size, m !! path ≠ Some (Directory size))
  ∧ (∃ size, m !! path_parent path = Some (Directory size))
  ∧ gif_writer (bool_decide (is_Some (m !! path))) first rest durs lp = Wrote data.
Proof.
  unfold try_save. split.
  - destruct (m !! path) as [[size|old]|] eqn:Ht; [done| |];
      (destruct (m !! path_parent path) as [[psize|pdata]|]; [|done|done]);
      (destruct (gif_writer _ first rest durs lp) as [d|e r] eqn:Hw; [|done]);
      intros [= <-]; (split; [done|]); (split; [by eexists|done]).
  - intros (Hnodir & [psize Hparent] & Hw).
    destruct (m !! path) as [[size|old]|] eqn:Ht;
      [by destruct (Hnodir size)| |]; by rewrite Hparent, Hw.
Qed.

(** X10: saving a non-empty sequence makes exactly one call of
    [Image.save], handing it the normalised frames (all of the maximum
    input width and height), the given durations and loop count 0, and can
    change no path but the target.  If the save succeeds the target holds
    the writer's bytes and one summary line is printed, reporting the
    canvas size and the number of images handed in; if it fails its
    exception escapes and nothing is printed. *)
Theorem save_gif_contract
    (gif_writer : bool → Image → list Image → list Z → Z → WriteResult)
    (images : list Image) (durs : list Z) (path : Path) (w : World)
    (Hne : images ≠ []) :
  ∃ o rest mw mh,
    normalize images = Ok (o :: rest)
    ∧ is_max mw (width <$> images) ∧ is_max mh (height <$> images)
    ∧ Forall (λ f, width f = mw ∧ height f = mh) (o :: rest)
    ∧ length (o :: rest) = length images
    ∧ saves (save_gif gif_writer images durs path w).2
      = saves w ++ [mkSaveCall path o rest durs 0]
    ∧ (∀ q, q ≠ path →
         fs (save_gif gif_writer images durs path w).2 !! q = fs w !! q)
    ∧ match try_save gif_writer (fs w) path o rest durs 0 with
      | SaveOk data =>
          save_gif gif_writer images durs path w
          = (Returned (),
             mkWorld (<[path := Regular data]> (fs w))
               (stdout w ++
                  [summary_line path mw mh (length images) (length data)])
               (saves w ++ [mkSaveCall path o rest durs 0]))
      | SaveErr e after =>
          save_gif gif_writer images durs path w
          = (Raised e,
             mkWorld (partial_alter (λ _, after) path (fs w)) (stdout w)
               (saves w ++ [mkSaveCall path o rest durs 0]))
      end.
Proof.
  destruct (normalize_fmap images Hne) as (mw & mh & Hmw & Hmh & Hn).
  destruct (normalize_one mw mh <$> images) as [|o rest] eqn:Hout.
  { by destruct images. }
  assert (Hdims : Forall (λ f, width f = mw ∧ height f = mh) (o :: rest)).
  { rewrite <- Hout. apply Forall_fmap, Forall_true. intros img. cbn.
    destruct (normalize_one_dims mw mh img) as (? & ? & _). done. }
  assert (Hlen : length (o :: rest) = length images)
    by (by apply normalize_length).
  exists o, rest, mw, mh.
  split; [done|]. split; [done|]. split; [done|]. split; [done|].
  split; [done|].
  pose proof (Forall_inv Hdims) as [Hw Hh]. cbn in Hw, Hh.
  destruct (try_save gif_writer (fs w) path o rest durs 0) as [data|e after] eqn:Hs.
  - rewrite (save_gif_saved gif_writer images durs path w o rest data Hn Hs).
    cbn [snd fs saves]. split; [done|].
    split; [intros q Hq; by apply lookup_insert_ne|].
    cbn [length] in Hlen. by rewrite Hw, Hh, Hlen.
  - rewrite (save_gif_failed gif_writer images durs path w o rest e after Hn Hs).
    cbn [snd fs saves]. split; [done|].
    split; [intros q Hq; by apply lookup_partial_alter_ne|]. done.
Qed.

Lemma save_gif_contract_witness :
  ∃ o rest mw mh,
    normalize [img_small; img_big] = Ok (o :: rest)
    ∧ is_max mw (width <$> [img_small; img_big])
    ∧ is_max mh (height <$> [img_small; img_big])
    ∧ Forall (λ f, width f = mw ∧ height f = mh) (o :: rest)
    ∧ length (o :: rest) = length [img_small; img_big]
    ∧ saves (save_gif sample_writer [img_small; img_big] [100; 200]%Z
               (demo_path []) sample_world).2
      = saves sample_world ++ [mkSaveCall (demo_path []) o rest [100; 200]%Z 0]
    ∧ (∀ q, q ≠ demo_path [] →
         fs (save_gif sample_writer [img_small; img_big] [100; 200]%Z
               (demo_path []) sample_world).2 !! q
         = fs sample_world !! q)
    ∧ match try_save sample_writer (fs sample_world) (demo_path []) o rest
              [100; 200]%Z 0 with
      | SaveOk data =>
          save_gif sample_writer [img_small; img_big] [100; 200]%Z
            (demo_path []) sample_world
          = (Returned (),
             mkWorld (<[demo_path [] := Regular data]> (fs sample_world))
               (stdout sample_world ++
                  [summary_line (demo_path []) mw mh
                     (length [img_small; img_big]) (length data)])
               (saves sample_world
                ++ [mkSaveCall (demo_path []) o rest [100; 200]%Z 0]))
      | SaveErr e after =>
          save_gif sample_writer [img_small; img_big] [100; 200]%Z
            (demo_path []) sample_world
          = (Raised e,
             mkWorld (partial_alter (λ _, after) (demo_path []) (fs sample_world))
               (stdout sample_world)
               (saves sample_world
                ++ [mkSaveCall (demo_path []) o rest [100; 200]%Z 0]))
      end.
Proof.
  apply (save_gif_contract sample_writer [img_small; img_big] [100; 200]%Z
           (demo_path []) sample_world).
  discriminate.
Defined.

Section Runs.
Variable decode_rgba : list byte → Res Decoded.
Variable gif_writer : bool → Image → list Image → list Z → Z → WriteResult.
Variable argv : list Path.

Local Abbreviation run := (main decode_rgba gif_writer argv).

(** Whatever happens, a run can only change the two output paths. *)
Lemma main_changes_only_outputs (w : World) (q : Path) :
  q ≠ demo_path argv → q ≠ worktree_path argv →
  fs (run w).2 !! q = fs w !! q.
Proof.
  intros Hd Hw.
  destruct (main_cases decode_rgba gif_writer argv w)
    as [(l1 & j & l2 & imgs & _ & _ & _ & [[_ ->]|[_ [e ->]]])
       |(imgs1 & o1 & rest1 & _ & _
         & [(e & after & _ & ->)
           |(d1 & o2 & rest2 & _ & _
             & [(e & after & _ & ->)|(d2 & _ & ->)])])];
    cbn [snd fs]; try done.
  - by rewrite lookup_partial_alter_ne.
  - by rewrite lookup_partial_alter_ne, lookup_insert_ne.
  - by rewrite !lookup_insert_ne.
Qed.

Lemma main_keeps_frames (w : World) (i : Z) :
  fs (run w).2 !! frame_path argv i = fs w !! frame_path argv i.
Proof.
  apply main_changes_only_outputs.
  - intros Heq. symmetry in Heq. revert Heq.
    apply frame_path_not_output. by left.
  - intros Heq. symmetry in Heq. revert Heq.
    apply frame_path_not_output. by right.
Qed.

(** The calls of [Image.save] a run adds to the record. *)
Lemma main_calls (w : World) :
  ∃ new, saves (run w).2 = saves w ++ new
    ∧ (new = []
       ∨ (∃ imgs1 o1 rest1 ds,
            durations = Ok ds
            ∧ plan_images decode_rgba argv (fs w) all_indices = Some imgs1
            ∧ normalize imgs1 = Ok (o1 :: rest1)
            ∧ (new = [mkSaveCall (demo_path argv) o1 rest1 ds 0]
               ∨ ∃ o2 rest2 wds,
                   worktree_durations = Ok wds
                   ∧ normalize (take 5 (drop 8 imgs1)) = Ok (o2 :: rest2)
                   ∧ new = [mkSaveCall (demo_path argv) o1 rest1 ds 0;
                            mkSaveCall (worktree_path argv) o2 rest2 wds 0]))).
Proof.
  destruct (main_cases decode_rgba gif_writer argv w)
    as [(l1 & j & l2 & imgs & _ & _ & _ & [[_ ->]|[_ [e ->]]])
       |(imgs1 & o1 & rest1 & Hp & Hn1
         & [(e & after & _ & ->)
           |(d1 & o2 & rest2 & _ & Hn2
             & [(e & after & _ & ->)|(d2 & _ & ->)])])];
    cbn [snd saves].
  - exists []. split; [by rewrite app_nil_r|by left].
  - exists []. split; [by rewrite app_nil_r|by left].
  - eexists. split; [done|]. right. eexists imgs1, o1, rest1, _.
    split; [exact durations_value|]. split; [done|]. split; [done|]. by left.
  - eexists. split; [done|]. right. eexists imgs1, o1, rest1, _.
    split; [exact durations_value|]. split; [done|]. split; [done|]. right.
    eexists o2, rest2, _. split; [exact worktree_durations_value|]. done.
  - eexists. split; [done|]. right. eexists imgs1, o1, rest1, _.
    split; [exact durations_value|]. split; [done|]. split; [done|]. right.
    eexists o2, rest2, _. split; [exact worktree_durations_value|]. done.
Qed.
End Runs.

(** X11: a run never touches its inputs: whatever the directory holds and
    however the run ends, only [demo.gif] and [worktree.gif] of the output
    directory can differ afterwards, and every frame file, whatever its
    index, holds what it held before (also when the output directory is the
    frame directory). *)
Theorem main_preserves_inputs (decode_rgba : list byte → Res Decoded)
    (gif_writer : bool → Image → list Image → list Z → Z → WriteResult)
    (argv : list Path) (w : World) :
  (∀ q, q ≠ demo_path argv → q ≠ worktree_path argv →
        fs (main decode_rgba gif_writer argv w).2 !! q = fs w !! q)
  ∧ (∀ i, fs (main decode_rgba gif_writer argv w).2 !! frame_path argv i
          = fs w !! frame_path argv i).
Proof.
  split.
  - intros q Hd Hw. by apply main_changes_only_outputs.
  - intros i. apply main_keeps_frames.
Qed.

(** X12: running again changes nothing on disk: if a run returned and the
    writer's result does not depend on whether its target already existed,
    a second run over the resulting directory also returns and leaves the
    file system exactly as the first run left it. *)
Theorem main_rerun_same_files (decode_rgba : list byte → Res Decoded)
    (gif_writer : bool → Image → list Image → list Z → Z → WriteResult)
    (argv : list Path) (w : World)
    (Hret : (main decode_rgba gif_writer argv w).1 = Returned ())
    (Hind : ∀ first rest durs lp,
       gif_writer true first rest durs lp = gif_writer false first rest durs lp) :
  (main decode_rgba gif_writer argv (main decode_rgba gif_writer argv w).2).1
  = Returned ()
  ∧ fs (main decode_rgba gif_writer argv (main decode_rgba gif_writer argv w).2).2
    = fs (main decode_rgba gif_writer argv w).2.
Proof.
  assert (Hany : ∀ b b' first rest durs lp,
            gif_writer b first rest durs lp = gif_writer b' first rest durs lp).
  { intros [] [] ????; by rewrite ?Hind. }
  destruct (main_cases decode_rgba gif_writer argv w)
    as [(l1 & j & l2 & imgs & _ & _ & _ & [[_ Hrun]|[_ [e Hrun]]])
       |(imgs1 & o1 & rest1 & Hp & Hn1
         & [(e & after & _ & Hrun)
           |(d1 & o2 & rest2 & Hs1 & Hn2
             & [(e & after & _ & Hrun)|(d2 & Hs2 & Hrun)])])];
    rewrite Hrun in Hret; try discriminate Hret.
  rewrite Hrun. cbn [snd].
  set (w' := mkWorld _ _ _).
  assert (Hdemo : fs w' !! demo_path argv = Some (Regular d1)).
  { unfold w'. cbn [fs].
    rewrite lookup_insert_ne by (symmetry; apply output_paths_differ).
    apply lookup_insert_eq. }
  assert (Hwt : fs w' !! worktree_path argv = Some (Regular d2)).
  { unfold w'. cbn [fs]. apply lookup_insert_eq. }
  assert (Hdir : fs w' !! out_dir argv = fs w !! out_dir argv).
  { unfold w'. cbn [fs]. by rewrite !lookup_insert_ne by apply out_dir_not_output. }
  assert (Hp' : plan_images decode_rgba argv (fs w') all_indices = Some imgs1).
  { rewrite (plan_images_other_fs decode_rgba argv (fs w)); [done|].
    intros i. unfold w'. cbn [fs].
    by rewrite !lookup_insert_ne by (apply frame_path_not_output; auto). }
  apply try_save_SaveOk in Hs1 as (_ & [s1 Hpar1] & Hw1).
  apply try_save_SaveOk in Hs2 as (_ & [s2 Hpar2] & Hw2).
  unfold demo_path in Hpar1. unfold worktree_path in Hpar2.
  rewrite path_parent_div in Hpar1, Hpar2.
  assert (Hs1' : try_save gif_writer (fs w') (demo_path argv) o1 rest1
                   [833; 500; 666; 1000; 833; 400; 400; 1166; 666;
                    500; 833; 666; 1000; 400; 400; 666; 666; 1166]%Z 0
                 = SaveOk d1).
  { apply try_save_SaveOk. split; [intros size; by rewrite Hdemo|].
    split.
    - exists s1. unfold demo_path. by rewrite path_parent_div, Hdir.
    - rewrite <- Hw1. apply Hany. }
  assert (Hs2' : try_save gif_writer (fs w') (worktree_path argv) o2 rest2
                   [666; 500; 833; 666; 1000]%Z 0
                 = SaveOk d2).
  { apply try_save_SaveOk. split; [intros size; by rewrite Hwt|].
    split.
    - exists s2. unfold worktree_path. by rewrite path_parent_div, Hdir.
    - rewrite <- Hw2. apply Hany. }
  rewrite (main_returns decode_rgba gif_writer argv w' imgs1 o1 rest1 d1 o2 rest2 d2)
    by done.
  split; [done|]. cbn [snd fs]. unfold w'. cbn [fs].
  apply map_eq. intros q. rewrite !lookup_insert. by repeat case_decide.
Qed.

Lemma main_rerun_same_files_witness :
  (main sample_decode sample_writer []
     (main sample_decode sample_writer [] sample_world).2).1
  = Returned ()
  ∧ fs (main sample_decode sample_writer []
          (main sample_decode sample_writer [] sample_world).2).2
    = fs (main sample_decode sample_writer [] sample_world).2.
Proof.
  apply (main_rerun_same_files sample_decode sample_writer [] sample_world).
  - vm_compute. reflexivity.
  - intros first rest durs lp. reflexivity.
Defined.

(** X13: the exit status of a run is 0 or 1, and it is 0 exactly when all
    eighteen frames decode and both saves succeed. *)
Theorem exit_status_zero_iff (decode_rgba : list byte → Res Decoded)
    (gif_writer : bool → Image → list Image → list Z → Z → WriteResult)
    (argv : list Path) (w : World) :
  (exit_status (main decode_rgba gif_writer argv w).1 = 0%Z
   ∨ exit_status (main decode_rgba gif_writer argv w).1 = 1%Z)
  ∧ (exit_status (main decode_rgba gif_writer argv w).1 = 0%Z ↔
     ∃ ds wds imgs1 o1 rest1 d1 o2 rest2 d2,
       durations = Ok ds ∧ worktree_durations = Ok wds
       ∧ plan_images decode_rgba argv (fs w) all_indices = Some imgs1
       ∧ normalize imgs1 = Ok (o1 :: rest1)
       ∧ try_save gif_writer (fs w) (demo_path argv) o1 rest1 ds 0 = SaveOk d1
       ∧ normalize (take 5 (drop 8 imgs1)) = Ok (o2 :: rest2)
       ∧ try_save gif_writer (fs w) (worktree_path argv) o2 rest2 wds 0
         = SaveOk d2).
Proof.
  assert (Hback : (∃ ds wds imgs1 o1 rest1 d1 o2 rest2 d2,
       durations = Ok ds ∧ worktree_durations = Ok wds
       ∧ plan_images decode_rgba argv (fs w) all_indices = Some imgs1
       ∧ normalize imgs1 = Ok (o1 :: rest1)
       ∧ try_save gif_writer (fs w) (demo_path argv) o1 rest1 ds 0 = SaveOk d1
       ∧ normalize (take 5 (drop 8 imgs1)) = Ok (o2 :: rest2)
       ∧ try_save gif_writer (fs w) (worktree_path argv) o2 rest2 wds 0
         = SaveOk d2) →
     exit_status (main decode_rgba gif_writer argv w).1 = 0%Z).
  { intros (ds & wds & imgs1 & o1 & rest1 & d1 & o2 & rest2 & d2
            & Hds & Hwds & Hp & Hn1 & Hs1 & Hn2 & Hs2).
    rewrite durations_value in Hds. injection Hds as <-.
    rewrite worktree_durations_value in Hwds. injection Hwds as <-.
    by rewrite (main_returns decode_rgba gif_writer argv w
                  imgs1 o1 rest1 d1 o2 rest2 d2). }
  destruct (main_cases decode_rgba gif_writer argv w)
    as [(l1 & j & l2 & imgs & _ & _ & _ & [[_ Hrun]|[_ [e Hrun]]])
       |(imgs1 & o1 & rest1 & Hp & Hn1
         & [(e & after & _ & Hrun)
           |(d1 & o2 & rest2 & Hs1 & Hn2
             & [(e & after & _ & Hrun)|(d2 & Hs2 & Hrun)])])].
  1-4: split; [right; by rewrite Hrun|];
       split; [rewrite Hrun; discriminate|exact Hback].
  split; [left; by rewrite Hrun|]. split; [|exact Hback]. intros _.
  eexists _, _, imgs1, o1, rest1, d1, o2, rest2, d2.
  split; [exact durations_value|]. split; [exact worktree_durations_value|].
  done.
Qed.

(** X14: the two calls of [Image.save] a run makes are cut from the same
    decoded frames: the second is for [worktree.gif], its canvas is no
    larger than that of the first, for [demo.gif], in either direction, and
    when the two canvases agree its frames are exactly frames 9 to 13 of
    those handed over for [demo.gif]. *)
Theorem worktree_call_is_slice (decode_rgba : list byte → Res Decoded)
    (gif_writer : bool → Image → list Image → list Z → Z → WriteResult)
    (argv : list Path) (w : World) (c1 c2 : SaveCall)
    (Hcalls : saves (main decode_rgba gif_writer argv w).2 = saves w ++ [c1; c2]) :
  call_path c1 = demo_path argv ∧ call_path c2 = worktree_path argv
  ∧ ∃ mw mh mw' mh',
      Forall (λ o, width o = mw ∧ height o = mh) (call_frames c1)
      ∧ Forall (λ o, width o = mw' ∧ height o = mh') (call_frames c2)
      ∧ mw' ≤ mw ∧ mh' ≤ mh
      ∧ (mw' = mw → mh' = mh →
         call_frames c2 = take 5 (drop 8 (call_frames c1))).
Proof.
  destruct (main_calls decode_rgba gif_writer argv w) as (new & Hnew & Hcases).
  rewrite Hnew in Hcalls. apply app_inv_head in Hcalls. subst new.
  destruct Hcases as [Hnil|(imgs1 & o1 & rest1 & ds & _ & Hp & Hn1 & Hcases)];
    [discriminate Hnil|].
  destruct Hcases as [Hone|(o2 & rest2 & wds & _ & Hn2 & Htwo)];
    [discriminate Hone|].
  injection Htwo as -> ->. cbn [call_path].
  split; [done|]. split; [done|].
  unfold call_frames. cbn [call_first call_rest].
  assert (Hne1 : imgs1 ≠ []) by (intros ->; done).
  assert (Hne2 : take 5 (drop 8 imgs1) ≠ []) by (intros Heq; by rewrite Heq in Hn2).
  destruct (normalize_fmap imgs1 Hne1) as (mw & mh & Hmw & Hmh & Hout1).
  destruct (normalize_fmap _ Hne2) as (mw' & mh' & Hmw' & Hmh' & Hout2).
  rewrite Hn1 in Hout1. injection Hout1 as Hout1.
  rewrite Hn2 in Hout2. injection Hout2 as Hout2.
  assert (Hsub : ∀ g : Image → nat, g <$> take 5 (drop 8 imgs1) ⊆ g <$> imgs1).
  { intros g x (img & -> & Himg)%list_elem_of_fmap.
    apply list_elem_of_fmap. exists img. split; [done|].
    apply list_elem_of_lookup_1 in Himg as [k Hk].
    apply lookup_take_Some in Hk as [Hk _]. rewrite lookup_drop in Hk.
    by eapply list_elem_of_lookup_2. }
  exists mw, mh, mw', mh'. rewrite Hout1, Hout2.
  split.
  { apply Forall_fmap, Forall_true. intros img. cbn.
    destruct (normalize_one_dims mw mh img) as (? & ? & _). done. }
  split.
  { apply Forall_fmap, Forall_true. intros img. cbn.
    destruct (normalize_one_dims mw' mh' img) as (? & ? & _). done. }
  split; [exact (is_max_subseteq _ _ _ _ (Hsub width) Hmw' Hmw)|].
  split; [exact (is_max_subseteq _ _ _ _ (Hsub height) Hmh' Hmh)|].
  intros -> ->. by rewrite fmap_take, fmap_drop.
Qed.

Lemma worktree_call_is_slice_witness :
  call_path sample_uniform_call1 = demo_path []
  ∧ call_path sample_uniform_call2 = worktree_path []
  ∧ ∃ mw mh mw' mh',
      Forall (λ o, width o = mw ∧ height o = mh) (call_frames sample_uniform_call1)
      ∧ Forall (λ o, width o = mw' ∧ height o = mh')
               (call_frames sample_uniform_call2)
      ∧ mw' ≤ mw ∧ mh' ≤ mh
      ∧ (mw' = mw → mh' = mh →
         call_frames sample_uniform_call2
         = take 5 (drop 8 (call_frames sample_uniform_call1))).
Proof.
  apply (worktree_call_is_slice sample_decode sample_writer [] sample_world_uniform).
  vm_compute. reflexivity.
Defined.

Example uniform_canvases_agree :
  Forall (λ o, width o = 2 ∧ height o = 1) (call_frames sample_uniform_call1)
  ∧ Forall (λ o, width o = 2 ∧ height o = 1) (call_frames sample_uniform_call2)
  ∧ call_frames sample_uniform_call2
    = take 5 (drop 8 (call_frames sample_uniform_call1)).
Proof. split; [|split]; [repeat constructor..|reflexivity]. Qed.

(** X15: every call of [Image.save] a run makes, at most two, is handed
    exactly one duration per frame, none below 50 ms, and loop count 0. *)
Theorem save_calls_have_matching_durations
    (decode_rgba : list byte → Res Decoded)
    (gif_writer : bool → Image → list Image → list Z → Z → WriteResult)
    (argv : list Path) (w : World) :
  ∃ new, saves (main decode_rgba gif_writer argv w).2 = saves w ++ new
    ∧ length new ≤ 2
    ∧ Forall (λ c, length (call_durations c) = length (call_frames c)
                   ∧ Forall (λ d, (50 ≤ d)%Z) (call_durations c)
                   ∧ call_loop c = 0%Z) new.
Proof.
  destruct (main_calls decode_rgba gif_writer argv w) as (new & Hnew & Hcases).
  exists new. split; [done|].
  destruct Hcases as [->|(imgs1 & o1 & rest1 & ds & Hds & Hp & Hn1 & Hcases)].
  { split; [cbn; lia|constructor]. }
  rewrite durations_value in Hds. injection Hds as <-.
  assert (H18 : length (o1 :: rest1) = 18).
  { rewrite (normalize_length _ _ Hn1).
    by rewrite (plan_images_length _ _ _ _ _ Hp). }
  assert (Hc1 : length (call_durations
                  (mkSaveCall (demo_path argv) o1 rest1
                     [833; 500; 666; 1000; 833; 400; 400; 1166; 666;
                      500; 833; 666; 1000; 400; 400; 666; 666; 1166]%Z 0))
                = length (call_frames
                    (mkSaveCall (demo_path argv) o1 rest1
                       [833; 500; 666; 1000; 833; 400; 400; 1166; 666;
                        500; 833; 666; 1000; 400; 400; 666; 666; 1166]%Z 0))
                ∧ Forall (λ d, (50 ≤ d)%Z)
                    [833; 500; 666; 1000; 833; 400; 400; 1166; 666;
                     500; 833; 666; 1000; 400; 400; 666; 666; 1166]%Z).
  { unfold call_frames. cbn [call_durations call_first call_rest].
    rewrite H18. split; [done|]. repeat constructor; lia. }
  destruct Hcases as [->|(o2 & rest2 & wds & Hwds & Hn2 & ->)].
  { split; [cbn; lia|]. constructor; [|constructor].
    destruct Hc1 as [? ?]. done. }
  rewrite worktree_durations_value in Hwds. injection Hwds as <-.
  assert (H5 : length (o2 :: rest2) = 5).
  { rewrite (normalize_length _ _ Hn2), length_take, length_drop.
    by rewrite (plan_images_length _ _ _ _ _ Hp). }
  split; [cbn; lia|]. constructor; [|constructor; [|constructor]].
  - destruct Hc1 as [? ?]. done.
  - unfold call_frames. cbn [call_durations call_first call_rest call_loop].
    rewrite H5. split; [done|]. split; [|done]. repeat constructor; lia.
Qed.
